(** * The row-indexing engine of the resizable grid

    A shallow embedding of [GridDataManager] (state/GridDataManager.ts) and
    of the pagination callbacks of [useGridManager]
    (state/useGridManager.ts), with the properties of the engine's indices
    proved over it.

    Layout: the host language's values and built-ins, the engine's state
    and methods, the controller's callbacks, the notions the properties
    are stated with, two hosts to run the engine on and sample stores,
    then the lemmas and theorems. *)

From Stdlib Require Import ZArith List Lia Ascii String DecimalString
  Sorting.Sorted Sorting.Permutation.
From stdpp Require Import gmap strings.

Local Open Scope string_scope.
Local Open Scope Z_scope.

(** ** Numbers

    A JavaScript number, restricted to the values the grid works with:
    integers (identifiers, amounts, quantities, epoch timestamps, page
    numbers) and the three special values the code can produce or tests
    for ([isNaN], a division by a zero page size). *)

Inductive Num : Type :=
| NaN
| NegInf
| Fin (z : Z)
| PosInf.

Module Num.

Definition eq_dec (a b : Num) : {a = b} + {a <> b}.
Proof. decide equality; apply Z.eq_dec. Defined.

(** [isNaN(n)] *)
Definition isNaN (n : Num) : bool :=
  match n with NaN => true | _ => false end.

(** [a - b] *)
Definition sub (a b : Num) : Num :=
  match a, b with
  | NaN, _ | _, NaN => NaN
  | Fin x, Fin y => Fin (x - y)
  | PosInf, PosInf | NegInf, NegInf => NaN
  | PosInf, _ | _, NegInf => PosInf
  | NegInf, _ | _, PosInf => NegInf
  end.

(** [a + b] *)
Definition add (a b : Num) : Num :=
  match a, b with
  | NaN, _ | _, NaN => NaN
  | Fin x, Fin y => Fin (x + y)
  | PosInf, NegInf | NegInf, PosInf => NaN
  | PosInf, _ | _, PosInf => PosInf
  | NegInf, _ | _, NegInf => NegInf
  end.

(** [-a] *)
Definition neg (a : Num) : Num :=
  match a with
  | NaN => NaN
  | NegInf => PosInf
  | Fin x => Fin (- x)
  | PosInf => NegInf
  end.

(** [a < b]; every comparison with [NaN] is false. *)
Definition ltb (a b : Num) : bool :=
  match a, b with
  | NaN, _ | _, NaN => false
  | Fin x, Fin y => x <? y
  | NegInf, NegInf | PosInf, PosInf => false
  | NegInf, _ | _, PosInf => true
  | PosInf, _ | _, NegInf => false
  end.

(** [a > b] *)
Definition gtb (a b : Num) : bool := ltb b a.

(** [a === b] on numbers: [NaN] differs from itself. *)
Definition strictEq (a b : Num) : bool :=
  match a, b with
  | NaN, _ | _, NaN => false
  | Fin x, Fin y => x =? y
  | NegInf, NegInf | PosInf, PosInf => true
  | _, _ => false
  end.

(** [Math.min(a, b)] *)
Definition min (a b : Num) : Num :=
  match a, b with
  | NaN, _ | _, NaN => NaN
  | _, _ => if ltb b a then b else a
  end.

(** [Math.max(a, b)] *)
Definition max (a b : Num) : Num :=
  match a, b with
  | NaN, _ | _, NaN => NaN
  | _, _ => if ltb a b then b else a
  end.

(** [Math.ceil(a / b)].  The quotient of two integers is rounded up at
    once, so that no fraction has to be represented; a zero divisor is
    the positive zero, the only zero an integer literal or an array
    length gives. *)
Definition ceilDiv (a b : Num) : Num :=
  match a, b with
  | NaN, _ | _, NaN => NaN
  | Fin x, Fin y =>
      if y =? 0 then
        (if x =? 0 then NaN else if 0 <? x then PosInf else NegInf)
      else Fin (- ((- x) / y))
  | Fin _, _ => Fin 0
  | PosInf, Fin y => if y <? 0 then NegInf else PosInf
  | NegInf, Fin y => if y <? 0 then PosInf else NegInf
  | _, _ => NaN
  end.

(** [n > 0]: a comparator result that makes [Array.prototype.sort] put
    the second argument first. *)
Definition isPos (n : Num) : bool := ltb (Fin 0) n.

(** [n < 0]: a comparator result that makes it keep the first argument
    first. *)
Definition isNeg (n : Num) : bool := ltb n (Fin 0).

End Num.

(** ** Values

    A cell of a record: [RowData] is [Record<string, any>], and the grid
    stores scalars. *)

Inductive Value : Type :=
| VUndef
| VNull
| VBool (b : bool)
| VNum (n : Num)
| VStr (s : string).

Definition Value_eq_dec (a b : Value) : {a = b} + {a <> b}.
Proof.
  decide equality;
    [apply Bool.bool_dec | apply Num.eq_dec | apply String.string_dec].
Defined.

(** Truthiness: what [if (v)] and [v || d] test. *)
Definition truthy (v : Value) : bool :=
  match v with
  | VUndef | VNull => false
  | VBool b => b
  | VNum (Fin z) => negb (z =? 0)
  | VNum NaN => false
  | VNum _ => true
  | VStr s => negb (String.eqb s "")
  end.

(** [v || d] *)
Definition orElse (v d : Value) : Value := if truthy v then v else d.

(** [typeof v === 'number'] *)
Definition isNumber (v : Value) : bool :=
  match v with VNum _ => true | _ => false end.

(** ** Strings *)

(** [s.startsWith(p)] *)
Definition startsWith (s p : string) : bool := String.prefix p s.

(** [s.includes(p)] *)
Fixpoint includes (s p : string) : bool :=
  String.prefix p s ||
  match s with
  | EmptyString => false
  | String _ s' => includes s' p
  end.

(** [s.endsWith(p)] *)
Fixpoint endsWith (s p : string) : bool :=
  String.eqb s p ||
  match s with
  | EmptyString => false
  | String _ s' => endsWith s' p
  end.

(** ** [Array.prototype.sort]

    The sort reads the result of the comparator through its sign, and
    [NaN] as zero.  ECMAScript (from the 2019 edition on, which made the
    sort stable) fixes the outcome for a consistent comparator only: the
    array then comes out in ascending order, and the elements that
    compare as equal keep the order they had.  With any other comparator
    the order is left to the implementation. *)

Section Sort.
Context {A : Type} (cmp : A -> A -> Num).

(** [a] and [b] compare as equal: the result is zero or [NaN]. *)
Definition tied (a b : A) : bool :=
  negb (Num.isNeg (cmp a b)) && negb (Num.isPos (cmp a b)).

(** The conditions of a consistent comparator, on three values: "equal"
    is reflexive, symmetric and transitive, "less" and "greater" are
    transitive. *)
Definition consistentAt (a b c : A) : bool :=
  tied a a
  && implb (tied a b) (tied b a)
  && implb (tied a b && tied b c) (tied a c)
  && implb (Num.isNeg (cmp a b) && Num.isNeg (cmp b c)) (Num.isNeg (cmp a c))
  && implb (Num.isPos (cmp a b) && Num.isPos (cmp b c)) (Num.isPos (cmp a c)).

(** [cmp] is a consistent comparator for the elements of [l]. *)
Definition consistentComparator (l : list A) : bool :=
  forallb (fun a => forallb (fun b => forallb (consistentAt a b) l) l) l.

(** The stable insertion sort.  It computes the one arrangement a
    consistent comparator allows (see [sort_sortWith]); it stands for
    [Array.prototype.sort] on the reference host only. *)
Fixpoint insertSorted (x : A) (l : list A) : list A :=
  match l with
  | [] => [x]
  | y :: l' =>
      if Num.isPos (cmp x y) then y :: insertSorted x l' else x :: y :: l'
  end.

Fixpoint sortWith (l : list A) : list A :=
  match l with
  | [] => []
  | x :: l' => insertSorted x (sortWith l')
  end.

End Sort.

(** ** The host

    The built-ins whose result depends on the host (locale data, the date
    parser, number formatting, the sorting algorithm) are taken as an
    interface; the engine is written, and its properties are proved, for
    every host.  Of [Array.prototype.sort] the interface holds what every
    implementation guarantees: the result has the elements of the array,
    and for a consistent comparator it is ascending and stable. *)

Class Host : Type := {
  (** [a.localeCompare(b)]: negative, zero or positive *)
  localeCompare : string -> string -> Z;
  (** [s.toLowerCase()] *)
  toLowerCase : string -> string;
  (** [Number(s)] for a string [s] *)
  stringToNumber : string -> Num;
  (** [String(n)] for a number [n] *)
  numberToString : Num -> string;
  (** [new Date(v).getTime()] *)
  dateGetTime : Value -> Num;
  (** [ids.sort(cmp)] on an array of identifiers *)
  sort : (string -> string -> Num) -> list string -> list string;
  sort_perm : forall cmp l, Permutation (sort cmp l) l;
  sort_ascending :
    forall cmp l,
      consistentComparator cmp l = true ->
      StronglySorted (fun a b => Num.isPos (cmp a b) = false) (sort cmp l);
  sort_keeps_ties :
    forall cmp l a,
      consistentComparator cmp l = true -> In a l ->
      List.filter (tied cmp a) (sort cmp l) = List.filter (tied cmp a) l
}.

(** What the sort by identifier relies on: [localeCompare] is a total
    preorder. *)
Class LocaleOrder (H : Host) : Prop := {
  localeCompare_antisym :
    forall a b, Z.sgn (localeCompare a b) = - Z.sgn (localeCompare b a);
  localeCompare_trans :
    forall a b c,
      localeCompare a b <= 0 -> localeCompare b c <= 0 ->
      localeCompare a c <= 0
}.

(** ** Types of the engine *)

Abbreviation RowId := string (only parsing).
Abbreviation RowData := (gmap string Value) (only parsing).

Inductive SortDirection : Type := asc | desc | none.

Inductive Operator : Type :=
| OpEq | OpNeq | OpGt | OpLt | OpContains | OpStarts | OpEnds.

Record FilterConfig : Type := {
  column : string;
  value : Value;
  operator : Operator
}.

Record SortState : Type := {
  sort_column : option string;
  sort_direction : SortDirection
}.

Definition DATE_COLUMNS : list string := ["createdAt"; "updatedAt"; "date"].
Definition SEARCHABLE_COLUMNS : list string :=
  ["name"; "description"; "email"; "notes"; "title"].
Definition NUMERIC_COLUMNS : list string :=
  ["id"; "amount"; "price"; "quantity"].

(** [cols.includes(col)] *)
Definition inColumns (col : string) (cols : list string) : bool :=
  existsb (String.eqb col) cols.

(** The fields of a [GridDataManager]. *)
Record Engine : Type := {
  rowMap : gmap RowId RowData;
  displayIndex : list RowId;
  filteredIndex : list RowId;
  searchIndex : gmap RowId string;
  sortValues : gmap string (gmap RowId Num);
  activeFilters : list FilterConfig;
  currentSort : SortState;
  idField : string
}.

(** What [getCurrentState] returns.  An identifier without a row gives
    [undefined] in [filteredRows]. *)
Record Snapshot : Type := {
  filteredRows : list (option RowData);
  totalRows : nat;
  filteredCount : nat;
  snap_currentSort : SortState;
  snap_activeFilters : list FilterConfig
}.

(** Assignments to one field. *)
Definition withRowMap (g : Engine) (m : gmap string (gmap string Value)) :=
  {| rowMap := m; displayIndex := displayIndex g;
     filteredIndex := filteredIndex g; searchIndex := searchIndex g;
     sortValues := sortValues g; activeFilters := activeFilters g;
     currentSort := currentSort g; idField := idField g |}.

Definition withDisplayIndex (g : Engine) (l : list string) :=
  {| rowMap := rowMap g; displayIndex := l;
     filteredIndex := filteredIndex g; searchIndex := searchIndex g;
     sortValues := sortValues g; activeFilters := activeFilters g;
     currentSort := currentSort g; idField := idField g |}.

Definition withFilteredIndex (g : Engine) (l : list string) :=
  {| rowMap := rowMap g; displayIndex := displayIndex g;
     filteredIndex := l; searchIndex := searchIndex g;
     sortValues := sortValues g; activeFilters := activeFilters g;
     currentSort := currentSort g; idField := idField g |}.

Definition withSearchIndex (g : Engine) (m : gmap string string) :=
  {| rowMap := rowMap g; displayIndex := displayIndex g;
     filteredIndex := filteredIndex g; searchIndex := m;
     sortValues := sortValues g; activeFilters := activeFilters g;
     currentSort := currentSort g; idField := idField g |}.

Definition withSortValues (g : Engine) (m : gmap string (gmap string Num)) :=
  {| rowMap := rowMap g; displayIndex := displayIndex g;
     filteredIndex := filteredIndex g; searchIndex := searchIndex g;
     sortValues := m; activeFilters := activeFilters g;
     currentSort := currentSort g; idField := idField g |}.

Definition withActiveFilters (g : Engine) (fs : list FilterConfig) :=
  {| rowMap := rowMap g; displayIndex := displayIndex g;
     filteredIndex := filteredIndex g; searchIndex := searchIndex g;
     sortValues := sortValues g; activeFilters := fs;
     currentSort := currentSort g; idField := idField g |}.

Definition withCurrentSort (g : Engine) (s : SortState) :=
  {| rowMap := rowMap g; displayIndex := displayIndex g;
     filteredIndex := filteredIndex g; searchIndex := searchIndex g;
     sortValues := sortValues g; activeFilters := activeFilters g;
     currentSort := s; idField := idField g |}.

(** [row[col]]: a missing property reads as [undefined]. *)
Definition field (row : RowData) (col : string) : Value :=
  default VUndef (row !! col).

(** ** The engine's methods *)

Section Methods.
Context {host : Host}.

(** [String(v)] *)
Definition toString (v : Value) : string :=
  match v with
  | VUndef => "undefined"
  | VNull => "null"
  | VBool true => "true"
  | VBool false => "false"
  | VNum n => numberToString n
  | VStr s => s
  end.

(** [Number(v)] *)
Definition toNumber (v : Value) : Num :=
  match v with
  | VUndef => NaN
  | VNull => Fin 0
  | VBool true => Fin 1
  | VBool false => Fin 0
  | VNum n => n
  | VStr s => stringToNumber s
  end.

(** [a === b] *)
Definition strictEq (a b : Value) : bool :=
  match a, b with
  | VUndef, VUndef | VNull, VNull => true
  | VBool x, VBool y => Bool.eqb x y
  | VNum x, VNum y => Num.strictEq x y
  | VStr x, VStr y => String.eqb x y
  | _, _ => false
  end.

(** [a < b]: two strings are compared by their code units, anything else
    as numbers. *)
Definition lessThan (a b : Value) : bool :=
  match a, b with
  | VStr x, VStr y => String.ltb x y
  | _, _ => Num.ltb (toNumber a) (toNumber b)
  end.

(** [this.rowMap.get(id)!]: on the states the engine reaches, every
    identifier of an index has a row (see [keysOK]); elsewhere the model
    reads an empty record where the code would throw. *)
Definition rowOf (g : Engine) (id : RowId) : RowData :=
  default ∅ (rowMap g !! id).

Definition buildSearchString (row : RowData) : string :=
  String.concat " "
    (map (fun col => toLowerCase (toString (orElse (field row col) (VStr ""))))
       SEARCHABLE_COLUMNS).

(** One turn of the loop over [DATE_COLUMNS] in [precomputeSortValues]. *)
Definition precomputeDate (id : RowId) (row : RowData)
    (sv : gmap string (gmap RowId Num)) (colName : string) :=
  let sv := match sv !! colName with
            | Some _ => sv
            | None => <[colName := ∅]> sv
            end in
  if truthy (field row colName) then
    let timestamp := dateGetTime (field row colName) in
    alter (insert id timestamp) colName sv
  else sv.

(** One turn of the loop over [NUMERIC_COLUMNS]. *)
Definition precomputeNumeric (id : RowId) (row : RowData)
    (sv : gmap string (gmap RowId Num)) (colName : string) :=
  let sv := match sv !! colName with
            | Some _ => sv
            | None => <[colName := ∅]> sv
            end in
  match field row colName with
  | VUndef | VNull => sv
  | v =>
      let numValue := match v with VNum n => n | _ => toNumber v end in
      if Num.isNaN numValue then sv
      else alter (insert id numValue) colName sv
  end.

Definition precomputeSortValues (id : RowId) (row : RowData) (g : Engine)
    : Engine :=
  let sv := fold_left (precomputeDate id row) DATE_COLUMNS (sortValues g) in
  let sv := fold_left (precomputeNumeric id row) NUMERIC_COLUMNS sv in
  withSortValues g sv.

(** The filter callback of [applyCurrentFilters]. *)
Definition passes (g : Engine) (f : FilterConfig) (id : RowId) : bool :=
  let row := rowOf g id in
  let v := field row (column f) in
  match operator f with
  | OpEq => strictEq v (value f)
  | OpNeq => negb (strictEq v (value f))
  | OpGt => lessThan (value f) v
  | OpLt => lessThan v (value f)
  | OpContains =>
      includes (toLowerCase (toString v)) (toLowerCase (toString (value f)))
  | OpStarts =>
      startsWith (toLowerCase (toString v))
        (toLowerCase (toString (value f)))
  | OpEnds =>
      endsWith (toLowerCase (toString v)) (toLowerCase (toString (value f)))
  end.

(** [applyCurrentFilters(skipSearch)]; the body never reads
    [skipSearch]. *)
Definition applyCurrentFilters (skipSearch : bool) (g : Engine) : Engine :=
  withFilteredIndex g
    (fold_left (fun acc f => List.filter (passes g f) acc)
       (activeFilters g) (displayIndex g)).

Definition getCurrentState (g : Engine) : Snapshot :=
  {| filteredRows := map (fun id => rowMap g !! id) (filteredIndex g);
     totalRows := size (rowMap g);
     filteredCount := length (filteredIndex g);
     snap_currentSort := currentSort g;
     snap_activeFilters := activeFilters g |}.

(** The comparator [sortBy] hands to [sort]. *)
Definition compareIds (g : Engine) (col : string) (dir : SortDirection)
    (idA idB : RowId) : Num :=
  match dir with
  | none =>
      let rowA := rowOf g idA in
      let rowB := rowOf g idB in
      Fin (localeCompare (toString (field rowA (idField g)))
             (toString (field rowB (idField g))))
  | _ =>
      match sortValues g !! col with
      | Some m =>
          let valueA := default (Fin 0) (m !! idA) in
          let valueB := default (Fin 0) (m !! idB) in
          match dir with
          | asc => Num.sub valueA valueB
          | _ => Num.sub valueB valueA
          end
      | None =>
          let valueA := field (rowOf g idA) col in
          let valueB := field (rowOf g idB) col in
          match valueA, valueB with
          | VNum a, VNum b =>
              match dir with
              | asc => Num.sub a b
              | _ => Num.sub b a
              end
          | _, _ =>
              let strA := toString (orElse valueA (VStr "")) in
              let strB := toString (orElse valueB (VStr "")) in
              let result := localeCompare strA strB in
              match dir with
              | asc => Fin result
              | _ => Fin (- result)
              end
          end
      end
  end.

Definition sortBy (col : string) (dir : SortDirection) (g : Engine)
    : Snapshot * Engine :=
  let g := withCurrentSort g
             {| sort_column := Some col; sort_direction := dir |} in
  let g := withDisplayIndex g
             (sort (compareIds g col dir) (displayIndex g)) in
  let g := applyCurrentFilters false g in
  (getCurrentState g, g).

(** [currentSort.direction !== 'none'] *)
Definition notNone (dir : SortDirection) : bool :=
  match dir with none => false | _ => true end.

(** The refresh of the sort cache in [updateCell]. *)
Definition updateSortValue (id : RowId) (col : string) (v : Value)
    (g : Engine) : Engine :=
  match sortValues g !! col with
  | Some _ =>
      if inColumns col DATE_COLUMNS && truthy v then
        let timestamp := dateGetTime v in
        withSortValues g (alter (insert id timestamp) col (sortValues g))
      else if inColumns col NUMERIC_COLUMNS
              && negb (strictEq v VNull) && negb (strictEq v VUndef) then
        let numValue := toNumber v in
        if Num.isNaN numValue then g
        else withSortValues g (alter (insert id numValue) col (sortValues g))
      else g
  | None => g
  end.

(** The refresh of the search index in [updateCell]. *)
Definition updateSearchIndex (id : RowId) (col : string) (row : RowData)
    (g : Engine) : Engine :=
  if inColumns col SEARCHABLE_COLUMNS then
    withSearchIndex g (<[id := buildSearchString row]> (searchIndex g))
  else g.

(** The new sort in [updateCell], when the edited column is the one the
    display is sorted by. *)
Definition resortOnEdit (col : string) (g : Engine) : Engine :=
  match sort_column (currentSort g) with
  | Some c =>
      if String.eqb c col && notNone (sort_direction (currentSort g))
      then snd (sortBy c (sort_direction (currentSort g)) g)
      else g
  | None => g
  end.

Definition updateCell (id : RowId) (col : string) (v : Value) (g : Engine)
    : option Snapshot * Engine :=
  match rowMap g !! id with
  | None => (None, g)
  | Some row =>
      let row := <[col := v]> row in
      let g := withRowMap g (<[id := row]> (rowMap g)) in
      let g := updateSearchIndex id col row g in
      let g := updateSortValue id col v g in
      let g := resortOnEdit col g in
      let g := applyCurrentFilters false g in
      (Some (getCurrentState g), g)
  end.

(** The new sort in [addRow], when a sort is active: the column is a
    non-empty string and the direction is not [none]. *)
Definition resortOnAdd (g : Engine) : Engine :=
  match sort_column (currentSort g) with
  | Some c =>
      if negb (String.eqb c "") && notNone (sort_direction (currentSort g))
      then snd (sortBy c (sort_direction (currentSort g)) g)
      else g
  | None => g
  end.

Definition addRow (row : RowData) (g : Engine) : option Snapshot * Engine :=
  let id := toString (field row (idField g)) in
  match rowMap g !! id with
  | Some _ => (None, g)
  | None =>
      let g := withRowMap g (<[id := row]> (rowMap g)) in
      let g := withDisplayIndex g (displayIndex g ++ [id]) in
      let g := withSearchIndex g
                 (<[id := buildSearchString row]> (searchIndex g)) in
      let g := precomputeSortValues id row g in
      let g := resortOnAdd g in
      let g := applyCurrentFilters false g in
      (Some (getCurrentState g), g)
  end.

(** [rowId !== id] *)
Definition differs (id rowId : RowId) : bool := negb (String.eqb rowId id).

Definition deleteRow (id : RowId) (g : Engine) : option Snapshot * Engine :=
  match rowMap g !! id with
  | None => (None, g)
  | Some _ =>
      let g := withRowMap g (delete id (rowMap g)) in
      let g := withDisplayIndex g (List.filter (differs id) (displayIndex g)) in
      let g := withFilteredIndex g
                 (List.filter (differs id) (filteredIndex g)) in
      let g := withSearchIndex g (delete id (searchIndex g)) in
      let g := withSortValues g (delete id <$> sortValues g) in
      (Some (getCurrentState g), g)
  end.

(** The callback of the search: [this.searchIndex.get(id)?.includes(q)]. *)
Definition matchesSearch (g : Engine) (lowerQuery : string) (id : RowId)
    : bool :=
  match searchIndex g !! id with
  | Some s => includes s lowerQuery
  | None => false
  end.

Definition filterBySearch (query : string) (g : Engine)
    : Snapshot * Engine :=
  if String.eqb query "" then
    let g := applyCurrentFilters true g in
    (getCurrentState g, g)
  else
    let lowerQuery := toLowerCase query in
    let g := withFilteredIndex g
               (List.filter (matchesSearch g lowerQuery) (displayIndex g)) in
    (getCurrentState g, g).

(** [f.column !== col] *)
Definition otherColumn (col : string) (f : FilterConfig) : bool :=
  negb (String.eqb (column f) col).

Definition addFilter (f : FilterConfig) (g : Engine) : Snapshot * Engine :=
  let g := withActiveFilters g
             (List.filter (otherColumn (column f)) (activeFilters g)) in
  let g := withActiveFilters g (activeFilters g ++ [f]) in
  let g := applyCurrentFilters false g in
  (getCurrentState g, g).

Definition removeFilter (col : string) (g : Engine) : Snapshot * Engine :=
  let g := withActiveFilters g
             (List.filter (otherColumn col) (activeFilters g)) in
  let g := applyCurrentFilters false g in
  (getCurrentState g, g).

Definition clearFilters (g : Engine) : Snapshot * Engine :=
  let g := withActiveFilters g [] in
  let g := withFilteredIndex g (displayIndex g) in
  (getCurrentState g, g).

Definition getRowById (id : RowId) (g : Engine) : option RowData :=
  rowMap g !! id.

Definition hasRow (id : RowId) (g : Engine) : bool :=
  bool_decide (is_Some (rowMap g !! id)).

Definition getFilteredIds (g : Engine) : list RowId := filteredIndex g.

(** The field initialisers of the class. *)
Definition emptyEngine (uniqueIdField : string) : Engine :=
  {| rowMap := ∅; displayIndex := []; filteredIndex := [];
     searchIndex := ∅; sortValues := ∅; activeFilters := [];
     currentSort := {| sort_column := None; sort_direction := none |};
     idField := uniqueIdField |}.

(** One turn of [rows.forEach] in the constructor. *)
Definition loadRow (g : Engine) (row : RowData) : Engine :=
  let id := toString (field row (idField g)) in
  let g := withRowMap g (<[id := row]> (rowMap g)) in
  let g := withDisplayIndex g (displayIndex g ++ [id]) in
  let g := withSearchIndex g
             (<[id := buildSearchString row]> (searchIndex g)) in
  precomputeSortValues id row g.

(** [new GridDataManager(rows, uniqueIdField)] *)
Definition GridDataManager (rows : list RowData) (uniqueIdField : string)
    : Engine :=
  let g := fold_left loadRow rows (emptyEngine uniqueIdField) in
  withFilteredIndex g (displayIndex g).

End Methods.

(** ** Commands

    The mutating calls the engine accepts, and the state after a sequence
    of them. *)

Inductive Command : Type :=
| SortBy (col : string) (dir : SortDirection)
| UpdateCell (id : RowId) (col : string) (v : Value)
| AddRow (row : RowData)
| DeleteRow (id : RowId)
| FilterBySearch (query : string)
| AddFilter (f : FilterConfig)
| RemoveFilter (col : string)
| ClearFilters.

Section Commands.
Context {host : Host}.

Definition exec (g : Engine) (c : Command) : Engine :=
  match c with
  | SortBy col dir => snd (sortBy col dir g)
  | UpdateCell id col v => snd (updateCell id col v g)
  | AddRow row => snd (addRow row g)
  | DeleteRow id => snd (deleteRow id g)
  | FilterBySearch query => snd (filterBySearch query g)
  | AddFilter f => snd (addFilter f g)
  | RemoveFilter col => snd (removeFilter col g)
  | ClearFilters => snd (clearFilters g)
  end.

Definition run (cs : list Command) (g : Engine) : Engine :=
  fold_left exec cs g.

(** The search text in force after the commands [cs], [q0] before them:
    the argument of the last [filterBySearch]. *)
Definition activeQuery (q0 : string) (cs : list Command) : string :=
  fold_left (fun q c => match c with FilterBySearch q' => q' | _ => q end)
    cs q0.

End Commands.

(** ** Pagination in [useGridManager]

    The two pieces of React state the page callbacks write, and
    [gridState.filteredCount] which they read. *)

Record Pager : Type := {
  currentPage : Num;
  pageSize : Num
}.

(** [Math.ceil(filteredCount / size) - 1] *)
Definition maxPage (count : nat) (size : Num) : Num :=
  Num.sub (Num.ceilDiv (Fin (Z.of_nat count)) size) (Fin 1).

Definition goToPage (count : nat) (page : Num) (p : Pager) : Pager :=
  let maxPage := maxPage count (pageSize p) in
  let validPage := Num.max (Fin 0) (Num.min page maxPage) in
  {| currentPage := validPage; pageSize := pageSize p |}.

Definition nextPage (count : nat) (p : Pager) : Pager :=
  let maxPage := maxPage count (pageSize p) in
  {| currentPage := Num.min (Num.add (currentPage p) (Fin 1)) maxPage;
     pageSize := pageSize p |}.

Definition prevPage (p : Pager) : Pager :=
  {| currentPage := Num.max (Num.sub (currentPage p) (Fin 1)) (Fin 0);
     pageSize := pageSize p |}.

Definition handleSetPageSize (count : nat) (size : Num) (p : Pager) : Pager :=
  let maxPage := maxPage count size in
  if Num.gtb (currentPage p) maxPage then
    {| currentPage := Num.max (Fin 0) maxPage; pageSize := size |}
  else {| currentPage := currentPage p; pageSize := size |}.

(** ** The rest of the engine's interface *)

(** The index [Array.prototype.slice] turns a bound into: a negative
    bound counts from the end, [NaN] is 0, and everything is clamped to
    the array. *)
Definition sliceIndex (len : nat) (n : Num) : nat :=
  match n with
  | NaN | NegInf => 0%nat
  | Fin z =>
      if z <? 0 then Z.to_nat (Z.max (Z.of_nat len + z) 0)
      else Z.to_nat (Z.min z (Z.of_nat len))
  | PosInf => len
  end.

(** [l.slice(start, final)] *)
Definition slice {A : Type} (l : list A) (start final : Num) : list A :=
  let k := sliceIndex (length l) start in
  let e := sliceIndex (length l) final in
  firstn (e - k) (skipn k l).

(** [getVisibleRows(startIndex, pageSize)]; [filter(Boolean)] drops the
    identifiers without a row. *)
Definition getVisibleRows (startIndex pageSize : Num) (g : Engine)
    : list RowData :=
  omap (fun id => rowMap g !! id)
    (slice (filteredIndex g) startIndex (Num.add startIndex pageSize)).

(** [getRowsByIds(ids)] *)
Definition getRowsByIds (ids : list RowId) (g : Engine) : list RowData :=
  omap (fun id => rowMap g !! id) ids.

(** ** The callbacks of [useGridManager]

    The state of the hook between two renders, and what one call of a
    callback makes of it.  The engine object is the hook's
    [dataManager]; a callback that calls it leaves it mutated. *)

Module Hook.

(** The hook's own [SortDirection]: ['none' | 'asc' | 'dsc']. *)
Inductive Direction : Type := dNone | dAsc | dDsc.

Record State : Type := {
  dataManager : Engine;
  gridState : Snapshot;
  searchQuery : string;
  selectedIds : list RowId;
  pager : Pager;
  sortField : option string;
  sortDirection : Direction;
  isLoading : bool
}.

(** [prev.includes(id)] *)
Definition includesId (id : RowId) (ids : list RowId) : bool :=
  existsb (String.eqb id) ids.

(** The update [toggleSelection(id)] hands to [setSelectedIds]. *)
Definition toggleSelection (id : RowId) (prev : list RowId) : list RowId :=
  if includesId id prev then List.filter (differs id) prev
  else (prev ++ [id])%list.

Definition clearSelection (prev : list RowId) : list RowId := [].

(** [String(row[idField])] for a row of a snapshot; the snapshots of the
    states the engine reaches have no [undefined] row (see
    [snapshot_rows]), for which the code would throw. *)
Definition snapshotId {host : Host} (idField : string)
    (row : option RowData) : RowId :=
  toString (field (default ∅ row) idField).

(** The selection after [toggleSelectAll()]. *)
Definition toggleSelectAll {host : Host} (idField : string)
    (s : State) : list RowId :=
  if (length (selectedIds s) =? length (filteredRows (gridState s)))%nat
  then []
  else map (snapshotId idField) (filteredRows (gridState s)).

Definition isSelected (id : RowId) (s : State) : bool :=
  includesId id (selectedIds s).

Definition isAllSelected (s : State) : bool :=
  (0 <? length (selectedIds s))%nat
  && (length (selectedIds s) =? length (filteredRows (gridState s)))%nat.

(** [columns[columnIndex - 1]]: [undefined] outside the array. *)
Definition columnAt (columns : list string) (columnIndex : Z)
    : option string :=
  if columnIndex - 1 <? 0 then None
  else nth_error columns (Z.to_nat (columnIndex - 1)).

(** The direction a click on the header of [column] asks for. *)
Definition newDirection (s : State) (column : string) : Direction :=
  match sortField s with
  | Some f =>
      if String.eqb f column then
        match sortDirection s with
        | dNone => dAsc
        | dAsc => dDsc
        | dDsc => dNone
        end
      else dAsc
  | None => dAsc
  end.

(** The direction in the engine's format. *)
Definition dmDirection (d : Direction) : SortDirection :=
  match d with
  | dDsc => desc
  | dAsc => asc
  | dNone => none
  end.

(** [handleSort(columnIndex)] for an index that names a column; for
    another index the column is [undefined], which the model of [sortBy]
    does not cover: the result is then [None]. *)
Definition handleSort {host : Host} (columns : list string)
    (columnIndex : Z) (s : State) : option State :=
  match columnAt columns columnIndex with
  | None => None
  | Some column =>
      let newDirection := newDirection s column in
      let result := sortBy column (dmDirection newDirection)
                      (dataManager s) in
      Some {| dataManager := snd result;
              gridState := fst result;
              searchQuery := searchQuery s;
              selectedIds := selectedIds s;
              pager := {| currentPage := Fin 0;
                          pageSize := pageSize (pager s) |};
              sortField := Some column;
              sortDirection := newDirection;
              isLoading := false |}
  end.

(** The operator [addFilter] passes on: one of the seven names, or
    ['eq']. *)
Definition validOperator (operator : string) : Operator :=
  if String.eqb operator "eq" then OpEq
  else if String.eqb operator "neq" then OpNeq
  else if String.eqb operator "gt" then OpGt
  else if String.eqb operator "lt" then OpLt
  else if String.eqb operator "contains" then OpContains
  else if String.eqb operator "starts" then OpStarts
  else if String.eqb operator "ends" then OpEnds
  else OpEq.

Definition addFilter {host : Host} (col : string) (v : Value)
    (operator : string) (s : State) : State :=
  let result :=
    addFilter
      {| column := col; value := v; operator := validOperator operator |}
      (dataManager s) in
  {| dataManager := snd result;
     gridState := fst result;
     searchQuery := searchQuery s;
     selectedIds := selectedIds s;
     pager := {| currentPage := Fin 0; pageSize := pageSize (pager s) |};
     sortField := sortField s;
     sortDirection := sortDirection s;
     isLoading := false |}.

Definition removeFilter {host : Host} (col : string) (s : State) : State :=
  let result := removeFilter col (dataManager s) in
  {| dataManager := snd result;
     gridState := fst result;
     searchQuery := searchQuery s;
     selectedIds := selectedIds s;
     pager := pager s;
     sortField := sortField s;
     sortDirection := sortDirection s;
     isLoading := false |}.

(** What a callback does with the engine's answer: [setGridState] when
    there is one. *)
Definition withResult (s : State) (r : option Snapshot * Engine)
    (selected : list RowId) : State :=
  {| dataManager := snd r;
     gridState := match fst r with
                  | Some result => result
                  | None => gridState s
                  end;
     searchQuery := searchQuery s;
     selectedIds := selected;
     pager := pager s;
     sortField := sortField s;
     sortDirection := sortDirection s;
     isLoading := false |}.

Definition updateCell {host : Host} (rowId : RowId) (columnName : string)
    (v : string) (s : State) : State :=
  if String.eqb columnName "" then s
  else withResult s
         (updateCell rowId columnName (VStr v) (dataManager s))
         (selectedIds s).

Definition addRow {host : Host} (rowData : RowData) (s : State) : State :=
  withResult s (addRow rowData (dataManager s)) (selectedIds s).

Definition deleteRow {host : Host} (rowId : RowId) (s : State) : State :=
  let r := deleteRow rowId (dataManager s) in
  withResult s r
    match fst r with
    | Some _ =>
        if includesId rowId (selectedIds s)
        then List.filter (differs rowId) (selectedIds s)
        else selectedIds s
    | None => selectedIds s
    end.

(** The effect that follows a change of [searchQuery]. *)
Definition searchEffect {host : Host} (s : State) : State :=
  let result := filterBySearch (searchQuery s) (dataManager s) in
  {| dataManager := snd result;
     gridState := fst result;
     searchQuery := searchQuery s;
     selectedIds := selectedIds s;
     pager := {| currentPage := Fin 0; pageSize := pageSize (pager s) |};
     sortField := sortField s;
     sortDirection := sortDirection s;
     isLoading := isLoading s |}.

(** [setSearchQuery(query)]: the effect runs when the text changes. *)
Definition setSearchQuery {host : Host} (query : string) (s : State)
    : State :=
  if String.eqb query (searchQuery s) then s
  else searchEffect
         {| dataManager := dataManager s;
            gridState := gridState s;
            searchQuery := query;
            selectedIds := selectedIds s;
            pager := pager s;
            sortField := sortField s;
            sortDirection := sortDirection s;
            isLoading := isLoading s |}.

Definition clearFilters {host : Host} (s : State) : State :=
  let result := clearFilters (dataManager s) in
  let s' := {| dataManager := snd result;
               gridState := fst result;
               searchQuery := "";
               selectedIds := selectedIds s;
               pager := {| currentPage := Fin 0;
                           pageSize := pageSize (pager s) |};
               sortField := sortField s;
               sortDirection := sortDirection s;
               isLoading := false |} in
  if String.eqb (searchQuery s) "" then s' else searchEffect s'.

End Hook.

(** ** Notions the properties are stated with *)

Section Notions.
Context {host : Host}.

(** The identifier of a record as the engine computes it. *)
Definition rowIdOf (uniqueIdField : string) (row : RowData) : RowId :=
  toString (field row uniqueIdField).

(** The stringified identifier-field value of the record stored under
    [id]: what [sortBy] compares for the direction [none]. *)
Definition idString (g : Engine) (id : RowId) : string :=
  toString (field (rowOf g id) (idField g)).

(** A record passes every active column filter. *)
Definition passesAll (g : Engine) (id : RowId) : bool :=
  forallb (fun f => passes g f id) (activeFilters g).

(** A record passes the search text [query]: the empty text lets every
    record pass; another one asks for the lowercased text in the
    record's entry of the search index. *)
Definition passesSearch (g : Engine) (query : string) (id : RowId) : bool :=
  if String.eqb query "" then true
  else matchesSearch g (toLowerCase query) id.

(** The filtered index the data model describes: the subsequence of the
    display index whose records pass the search text and all active
    filters. *)
Definition expectedFilteredIndex (g : Engine) (query : string)
    : list RowId :=
  List.filter (fun id => passesSearch g query id && passesAll g id)
    (displayIndex g).

(** The commands that end with [applyCurrentFilters], when they do not
    return [null]. *)
Definition refilters (g : Engine) (c : Command) : Prop :=
  match c with
  | SortBy _ _ | AddFilter _ | RemoveFilter _ => True
  | UpdateCell id _ _ => is_Some (rowMap g !! id)
  | AddRow row => rowMap g !! rowIdOf (idField g) row = None
  | _ => False
  end.

(** Every identifier of the display index has a row: the condition under
    which [rowOf] is what [this.rowMap.get(id)!] returns. *)
Definition keysOK (g : Engine) : Prop :=
  forall id, In id (displayIndex g) -> is_Some (rowMap g !! id).

(** Index consistency. *)
Definition consistent (g : Engine) : Prop :=
  (forall id, In id (filteredIndex g) -> In id (displayIndex g)) /\
  (forall id, In id (displayIndex g) <-> is_Some (rowMap g !! id)).

(** The part of a state the indices are checked against: rows and
    filters. *)
Definition sameStore (g g' : Engine) : Prop :=
  rowMap g' = rowMap g /\ activeFilters g' = activeFilters g /\
  idField g' = idField g.

(** The comparator the specification gives for a column with a cache
    [m]: cached values compared as numbers, a missing entry counting as
    zero. *)
Definition cachedValue (m : gmap RowId Num) (id : RowId) : Num :=
  match m !! id with
  | Some v => v
  | None => Fin 0
  end.

Definition cachedCompare (m : gmap RowId Num) (dir : SortDirection)
    (idA idB : RowId) : Num :=
  match dir with
  | desc => Num.sub (cachedValue m idB) (cachedValue m idA)
  | _ => Num.sub (cachedValue m idA) (cachedValue m idB)
  end.

(** Two records have the same comparison key for a column when the
    comparator of [sortBy] puts neither before the other: equal cached
    values, equal numbers, or cells with the same [String(v || '')]
    (see [sameKey_cached], [sameKey_numbers], [sameKey_strings]). *)
Definition sameKey (g : Engine) (col : string) (dir : SortDirection)
    (a b : RowId) : bool :=
  tied (compareIds g col dir) a b.

End Notions.

(** [lo <= n <= hi] on page numbers. *)
Definition inPages (lo hi : Z) (n : Num) : Prop :=
  match n with
  | Fin z => lo <= z <= hi
  | _ => False
  end.

(** The last page of [count] rows in pages of [size] rows. *)
Definition lastPage (count : nat) (size : Z) : Z :=
  - ((- Z.of_nat count) / size) - 1.

(** ** Sample stores *)

Module Sample.

Definition record (cells : list (string * Value)) : RowData :=
  list_to_map cells.

(** The store of the specification's scenario: three records with the
    amounts 10, 5 and 20. *)
Definition amounts : list RowData :=
  [ record [("id", VStr "1"); ("amount", VNum (Fin 10))];
    record [("id", VStr "2"); ("amount", VNum (Fin 5))];
    record [("id", VStr "3"); ("amount", VNum (Fin 20))] ].

(** Three named records. *)
Definition people : list RowData :=
  [ record [("id", VStr "1"); ("name", VStr "Ann");
             ("amount", VNum (Fin 10))];
    record [("id", VStr "2"); ("name", VStr "Bob");
             ("amount", VNum (Fin 5))];
    record [("id", VStr "3"); ("name", VStr "Anna");
             ("amount", VNum (Fin 3))] ].

Definition amountAbove4 : FilterConfig :=
  {| column := "amount"; value := VNum (Fin 4); operator := OpGt |}.

(** Two records with the same identifier. *)
Definition twins : list RowData :=
  [ record [("id", VStr "1"); ("name", VStr "first")];
    record [("id", VStr "1"); ("name", VStr "second")] ].

(** Two records without the identifier field. *)
Definition anonymous : list RowData :=
  [ record [("name", VStr "first")];
    record [("name", VStr "second")] ].

(** The record of the specification's duplicate-key scenario. *)
Definition again : RowData :=
  record [("id", VStr "1"); ("amount", VNum (Fin 1))].

(** Two records with different amounts and the same price. *)
Definition priced : list RowData :=
  [ record [("id", VStr "1"); ("amount", VNum (Fin 2));
             ("price", VNum (Fin 7))];
    record [("id", VStr "2"); ("amount", VNum (Fin 1));
             ("price", VNum (Fin 7))] ].

(** A record with a date. *)
Definition dated : list RowData :=
  [ record [("id", VStr "1"); ("date", VStr "2020-01-01")] ].

End Sample.

(** ** Invariants of the engine *)

Section Invariants.
Context {host : Host}.

(** The search index holds, for every stored row and for no other
    identifier, the search string of the row as it is now. *)
Definition searchOK (g : Engine) : Prop :=
  forall id, searchIndex g !! id = buildSearchString <$> (rowMap g !! id).

(** A property of every entry of the sort cache: column, identifier
    and cached value. *)
Definition allEntries (P : string -> RowId -> Num -> Prop)
    (sv : gmap string (gmap RowId Num)) : Prop :=
  forall col m id v, sv !! col = Some m -> m !! id = Some v -> P col id v.

(** The sort cache has entries for stored rows only. *)
Definition cacheKeysOK (g : Engine) : Prop :=
  allEntries (fun _ id _ => is_Some (rowMap g !! id)) (sortValues g).

(** The cache of a numeric column holds no [NaN]. *)
Definition numericOK (g : Engine) : Prop :=
  allEntries (fun col _ v => inColumns col NUMERIC_COLUMNS = true -> v <> NaN)
    (sortValues g).

(** [a] may stand before [b] in the direction [dir], by the values
    cached in [m]. *)
Definition inOrder (m : gmap RowId Num) (dir : SortDirection)
    (a b : RowId) : Prop :=
  match dir with
  | desc => Num.ltb (cachedValue m a) (cachedValue m b)
  | _ => Num.ltb (cachedValue m b) (cachedValue m a)
  end = false.

(** While a numeric column with a cache is the sort column, the display
    index is in the order of the cached values. *)
Definition sortedOK (g : Engine) : Prop :=
  forall col m,
    sort_column (currentSort g) = Some col ->
    notNone (sort_direction (currentSort g)) = true ->
    inColumns col NUMERIC_COLUMNS = true ->
    sortValues g !! col = Some m ->
    StronglySorted (inOrder m (sort_direction (currentSort g)))
      (displayIndex g).

(** At most one active filter per column. *)
Definition oneFilterPerColumn (g : Engine) : Prop :=
  List.NoDup (map column (activeFilters g)).

End Invariants.

(** ** Notions for the hook *)

(** The snapshot the hook holds is the engine's current state. *)
Definition synced {host : Host} (s : Hook.State) : Prop :=
  Hook.gridState s = getCurrentState (Hook.dataManager s).

(** The state after [setSelectedIds(ids)]. *)
Definition selecting (ids : list RowId) (s : Hook.State) : Hook.State :=
  {| Hook.dataManager := Hook.dataManager s;
     Hook.gridState := Hook.gridState s;
     Hook.searchQuery := Hook.searchQuery s;
     Hook.selectedIds := ids;
     Hook.pager := Hook.pager s;
     Hook.sortField := Hook.sortField s;
     Hook.sortDirection := Hook.sortDirection s;
     Hook.isLoading := Hook.isLoading s |}.

(** ** A reference host

    One host to run the engine on: strings are compared by code units,
    letters A to Z are lowered, numbers are read and written as signed
    decimal integers, a date is a timestamp or a calendar date
    [YYYY-MM-DD], and an array is sorted by insertion.  On these inputs,
    and for a consistent comparator, it returns what ECMAScript
    prescribes. *)

Module Ref.

Definition localeCompare (a b : string) : Z :=
  match String.compare a b with
  | Lt => -1
  | Eq => 0
  | Gt => 1
  end.

Definition lowerChar (c : ascii) : ascii :=
  let n := N_of_ascii c in
  if ((65 <=? n) && (n <=? 90))%N then ascii_of_N (n + 32) else c.

Fixpoint toLowerCase (s : string) : string :=
  match s with
  | EmptyString => EmptyString
  | String c s' => String (lowerChar c) (toLowerCase s')
  end.

Definition stringToNumber (s : string) : Num :=
  if String.eqb s "" then Fin 0
  else match NilZero.int_of_string s with
       | Some d => Fin (Z.of_int d)
       | None => NaN
       end.

Definition numberToString (n : Num) : string :=
  match n with
  | NaN => "NaN"
  | NegInf => "-Infinity"
  | Fin z => NilZero.string_of_int (Z.to_int z)
  | PosInf => "Infinity"
  end.

(** The digits of [s] as a number, if [s] has only digits. *)
Definition digits (s : string) : option Z :=
  match s with
  | EmptyString => None
  | _ => option_map Z.of_uint (NilZero.uint_of_string s)
  end.

(** Days from 1970-01-01 to the civil date [y]-[m]-[d]. *)
Definition daysFromCivil (y m d : Z) : Z :=
  let y := if m <=? 2 then y - 1 else y in
  let era := y / 400 in
  let yoe := y - era * 400 in
  let mp := if 2 <? m then m - 3 else m + 9 in
  let doy := (153 * mp + 2) / 5 + d - 1 in
  let doe := yoe * 365 + yoe / 4 - yoe / 100 + doy in
  era * 146097 + doe - 719468.

(** [Date.parse] on the date-only form [YYYY-MM-DD]. *)
Definition parseDate (s : string) : Num :=
  if (String.length s =? 10)%nat
     && String.eqb (substring 4 1 s) "-"
     && String.eqb (substring 7 1 s) "-"
  then
    match digits (substring 0 4 s), digits (substring 5 2 s),
          digits (substring 8 2 s) with
    | Some y, Some m, Some d =>
        if (1 <=? m) && (m <=? 12) && (1 <=? d) && (d <=? 31)
        then Fin (daysFromCivil y m d * 86400000)
        else NaN
    | _, _, _ => NaN
    end
  else NaN.

(** [TimeClip]: a timestamp beyond 8.64e15 ms is not a date. *)
Definition timeClip (n : Num) : Num :=
  match n with
  | Fin z => if Z.abs z <=? 8640000000000000 then Fin z else NaN
  | _ => NaN
  end.

Definition dateGetTime (v : Value) : Num :=
  match v with
  | VUndef => NaN
  | VNull => Fin 0
  | VBool true => Fin 1
  | VBool false => Fin 0
  | VNum n => timeClip n
  | VStr s => parseDate s
  end.

End Ref.

(** *** The insertion sort meets the contract of [sort]

    What the instance below has to provide: the insertion sort permutes,
    and with a consistent comparator its result is ascending and keeps
    the ties in place. *)

Lemma sign_cases (n : Num) :
  (Num.isNeg n = true /\ Num.isPos n = false) \/
  (Num.isNeg n = false /\ Num.isPos n = false) \/
  (Num.isNeg n = false /\ Num.isPos n = true).
Proof.
  destruct n as [| |z|]; cbn; auto.
  destruct (Z.ltb_spec z 0), (Z.ltb_spec 0 z); auto; lia.
Qed.

Ltac signs x :=
  let E := fresh "E" in
  let E' := fresh "E" in
  destruct (sign_cases x) as [[E E']|[[E E']|[E E']]];
  rewrite ?E, ?E' in *.

Section InsertionSort.
Context {A : Type} (cmp : A -> A -> Num).

Lemma consistentComparator_spec (l : list A) :
  consistentComparator cmp l = true <->
  forall a b c, In a l -> In b l -> In c l -> consistentAt cmp a b c = true.
Proof.
  unfold consistentComparator. rewrite forallb_forall. split.
  - intros H a b c Ha Hb Hc. specialize (H a Ha).
    rewrite forallb_forall in H. specialize (H b Hb).
    rewrite forallb_forall in H. exact (H c Hc).
  - intros H a Ha. apply forallb_forall. intros b Hb.
    apply forallb_forall. intros c Hc. auto.
Qed.

Lemma consistentAt_parts (a b c : A) :
  consistentAt cmp a b c = true ->
  tied cmp a a = true /\
  (tied cmp a b = true -> tied cmp b a = true) /\
  (tied cmp a b = true -> tied cmp b c = true -> tied cmp a c = true) /\
  (Num.isNeg (cmp a b) = true -> Num.isNeg (cmp b c) = true ->
   Num.isNeg (cmp a c) = true) /\
  (Num.isPos (cmp a b) = true -> Num.isPos (cmp b c) = true ->
   Num.isPos (cmp a c) = true).
Proof.
  unfold consistentAt. rewrite !Bool.andb_true_iff, !Bool.implb_true_iff.
  rewrite !Bool.andb_true_iff. tauto.
Qed.

Section Consistent.
Variable l : list A.
Hypothesis Hc : consistentComparator cmp l = true.

Let at3 (a b c : A) (Ha : In a l) (Hb : In b l) (Hc' : In c l) :=
  consistentAt_parts a b c (proj1 (consistentComparator_spec l) Hc a b c Ha Hb Hc').

Lemma tied_refl (a : A) : In a l -> tied cmp a a = true.
Proof. intros Ha. exact (proj1 (at3 a a a Ha Ha Ha)). Qed.

Lemma tied_sym (a b : A) :
  In a l -> In b l -> tied cmp a b = true -> tied cmp b a = true.
Proof. intros Ha Hb. exact (proj1 (proj2 (at3 a b a Ha Hb Ha))). Qed.

Lemma tied_trans (a b c : A) :
  In a l -> In b l -> In c l ->
  tied cmp a b = true -> tied cmp b c = true -> tied cmp a c = true.
Proof. intros Ha Hb Hc'. exact (proj1 (proj2 (proj2 (at3 a b c Ha Hb Hc')))). Qed.

Lemma order_antisym (a b : A) :
  In a l -> In b l -> Num.isNeg (cmp a b) = Num.isPos (cmp b a).
Proof.
  intros Ha Hb.
  pose proof (tied_refl a Ha) as Haa.
  pose proof (tied_sym a b Ha Hb) as Hab.
  pose proof (tied_sym b a Hb Ha) as Hba.
  destruct (at3 a b a Ha Hb Ha) as (_ & _ & _ & Hlt & Hgt).
  unfold tied in *.
  signs (cmp a b); signs (cmp b a); signs (cmp a a); cbn in *;
    try reflexivity; try discriminate;
    try (specialize (Hab eq_refl); discriminate);
    try (specialize (Hba eq_refl); discriminate);
    try (specialize (Hlt eq_refl eq_refl); discriminate);
    try (specialize (Hgt eq_refl eq_refl); discriminate).
Qed.

Lemma order_total (a b : A) :
  In a l -> In b l ->
  Num.isPos (cmp a b) = true -> Num.isPos (cmp b a) = false.
Proof.
  intros Ha Hb Hpos. rewrite <- (order_antisym a b Ha Hb).
  signs (cmp a b); congruence.
Qed.

Lemma order_trans (a b c : A) :
  In a l -> In b l -> In c l ->
  Num.isPos (cmp a b) = false -> Num.isPos (cmp b c) = false ->
  Num.isPos (cmp a c) = false.
Proof.
  intros Ha Hb Hc' Hab Hbc.
  destruct (at3 a b c Ha Hb Hc') as (_ & _ & Htt & Hlt & _).
  destruct (at3 c a b Hc' Ha Hb) as (_ & _ & _ & Hlt2 & _).
  destruct (at3 b c a Hb Hc' Ha) as (_ & _ & _ & Hlt3 & _).
  pose proof (tied_sym a b Ha Hb) as Sab.
  pose proof (tied_sym b c Hb Hc') as Sbc.
  pose proof (order_antisym c a Hc' Ha) as Aca.
  unfold tied in *.
  signs (cmp a b); try discriminate;
  signs (cmp b c); try discriminate;
  signs (cmp a c); try reflexivity; cbn in *;
  signs (cmp c a); try discriminate;
  signs (cmp b a); signs (cmp c b); cbn in *;
    try discriminate;
    try (specialize (Htt eq_refl eq_refl); discriminate);
    try (specialize (Hlt eq_refl eq_refl); discriminate);
    try (specialize (Hlt2 eq_refl eq_refl); discriminate);
    try (specialize (Hlt3 eq_refl eq_refl); discriminate);
    try (specialize (Sab eq_refl); discriminate);
    try (specialize (Sbc eq_refl); discriminate).
Qed.

Lemma tied_order (a b : A) :
  In a l -> In b l ->
  tied cmp a b = true <->
  Num.isPos (cmp a b) = false /\ Num.isPos (cmp b a) = false.
Proof.
  intros Ha Hb. unfold tied. rewrite (order_antisym a b Ha Hb).
  destruct (Num.isPos (cmp a b)), (Num.isPos (cmp b a)); cbn; intuition.
Qed.

End Consistent.

Lemma insertSorted_perm (x : A) (l : list A) :
  Permutation (insertSorted cmp x l) (x :: l).
Proof.
  induction l as [|y l IH]; simpl; [reflexivity|].
  destruct (Num.isPos (cmp x y)); [|reflexivity].
  rewrite IH. apply perm_swap.
Qed.

Lemma sortWith_perm (l : list A) : Permutation (sortWith cmp l) l.
Proof.
  induction l as [|x l IH]; simpl; [reflexivity|].
  rewrite insertSorted_perm. now constructor.
Qed.

Lemma sortWith_In (l : list A) (x : A) : In x (sortWith cmp l) <-> In x l.
Proof.
  split; apply Permutation_in;
    [apply sortWith_perm | symmetry; apply sortWith_perm].
Qed.

Section Stable.
Variable P : A -> bool.
Variable Q : A -> Prop.
Hypothesis ties :
  forall x y, Q x -> Q y -> P x = true -> P y = true ->
    Num.isPos (cmp x y) = false.

Lemma filter_insertSorted (x : A) (l : list A) :
  Q x -> List.Forall Q l ->
  List.filter P (insertSorted cmp x l) = List.filter P (x :: l).
Proof.
  intros Hx Hl. induction Hl as [|y l Hy Hl IH]; [reflexivity|].
  cbn [insertSorted].
  destruct (Num.isPos (cmp x y)) eqn:Hpos; [|reflexivity].
  cbn [List.filter] in *. rewrite IH.
  destruct (P x) eqn:Px, (P y) eqn:Py; try reflexivity.
  rewrite (ties x y Hx Hy Px Py) in Hpos. discriminate.
Qed.

Lemma sortWith_stable (l : list A) :
  List.Forall Q l -> List.filter P (sortWith cmp l) = List.filter P l.
Proof.
  induction 1 as [|x l Hx Hl IH]; [reflexivity|].
  cbn [sortWith]. rewrite filter_insertSorted; [|exact Hx|].
  - cbn [List.filter]. now rewrite IH.
  - apply List.Forall_forall. intros z Hz.
    apply (proj1 (sortWith_In _ _)) in Hz.
    now apply (proj1 (List.Forall_forall _ _) Hl).
Qed.

End Stable.

Section Ordered.
Variable Q : A -> Prop.
Let R (a b : A) : Prop := Num.isPos (cmp a b) = false.
Hypothesis total :
  forall a b, Q a -> Q b -> Num.isPos (cmp a b) = true -> R b a.
Hypothesis trans :
  forall a b c, Q a -> Q b -> Q c -> R a b -> R b c -> R a c.

Lemma insertSorted_sorted (x : A) (l : list A) :
  Q x -> List.Forall Q l ->
  StronglySorted R l -> StronglySorted R (insertSorted cmp x l).
Proof.
  intros Hx Hl Hs. revert Hl.
  induction Hs as [|y l Hs IH Hall]; intros Hl; cbn [insertSorted].
  - constructor; constructor.
  - pose proof (proj1 (List.Forall_forall _ _) Hall) as Hall'.
    pose proof (proj1 (List.Forall_forall _ _) Hl) as Hl'.
    assert (Hy : Q y) by (apply Hl'; now left).
    destruct (Num.isPos (cmp x y)) eqn:Hpos.
    + constructor.
      * apply IH. apply List.Forall_forall. intros z Hz.
        apply Hl'. now right.
      * apply List.Forall_forall. intros z Hz.
        apply (Permutation_in _ (insertSorted_perm x l)) in Hz.
        destruct Hz as [<-|Hz]; [now apply total|now apply Hall'].
    + constructor; [now constructor|].
      constructor; [exact Hpos|].
      apply List.Forall_forall. intros z Hz.
      apply (trans x y z); auto.
      apply Hl'. now right.
Qed.

Lemma sortWith_sorted (l : list A) :
  List.Forall Q l -> StronglySorted R (sortWith cmp l).
Proof.
  induction l as [|x l IH]; cbn [sortWith]; [constructor|].
  intros Hl. pose proof (proj1 (List.Forall_forall _ _) Hl) as Hl'.
  assert (Hrest : List.Forall Q l).
  { apply List.Forall_forall. intros z Hz. apply Hl'. now right. }
  apply insertSorted_sorted; [apply Hl'; now left| |now apply IH].
  apply List.Forall_forall. intros z Hz. apply Hl'. right.
  now apply (Permutation_in _ (sortWith_perm l)).
Qed.

End Ordered.

(** With a consistent comparator the insertion sort returns the array in
    ascending order, ties in the order they had. *)
Lemma sortWith_ascending (l : list A) :
  consistentComparator cmp l = true ->
  StronglySorted (fun a b => Num.isPos (cmp a b) = false) (sortWith cmp l).
Proof.
  intros Hc. apply (sortWith_sorted (fun a => In a l)).
  - intros a b. now apply order_total.
  - intros a b c. now apply order_trans.
  - apply List.Forall_forall. auto.
Qed.

Lemma sortWith_keeps_ties (l : list A) (a : A) :
  consistentComparator cmp l = true -> In a l ->
  List.filter (tied cmp a) (sortWith cmp l) = List.filter (tied cmp a) l.
Proof.
  intros Hc Ha. apply (sortWith_stable _ (fun x => In x l)).
  - intros x y Hx Hy Tx Ty.
    apply (tied_order l Hc x y Hx Hy).
    apply (tied_trans l Hc x a y); auto.
    now apply (tied_sym l Hc a x).
  - apply List.Forall_forall. auto.
Qed.

End InsertionSort.

Definition refHost : Host := {|
  localeCompare := Ref.localeCompare;
  toLowerCase := Ref.toLowerCase;
  stringToNumber := Ref.stringToNumber;
  numberToString := Ref.numberToString;
  dateGetTime := Ref.dateGetTime;
  sort := sortWith;
  sort_perm := sortWith_perm;
  sort_ascending := sortWith_ascending;
  sort_keeps_ties := sortWith_keeps_ties
|}.

(** *** A host with a collation

    The reference host but for [localeCompare], which here compares two
    strings alphabetically first, whatever the case of their letters,
    and puts a lowercase letter before its capital: the order that the
    collation of the browsers and of Node gives on the letters A to Z,
    where ['a'.localeCompare('B')] is negative. *)

Module Collate.

Definition localeCompare (a b : string) : Z :=
  match String.compare (Ref.toLowerCase a) (Ref.toLowerCase b) with
  | Lt => -1
  | Gt => 1
  | Eq =>
      match String.compare b a with
      | Lt => -1
      | Eq => 0
      | Gt => 1
      end
  end.

End Collate.

Definition collatingHost : Host := {|
  localeCompare := Collate.localeCompare;
  toLowerCase := Ref.toLowerCase;
  stringToNumber := Ref.stringToNumber;
  numberToString := Ref.numberToString;
  dateGetTime := Ref.dateGetTime;
  sort := sortWith;
  sort_perm := sortWith_perm;
  sort_ascending := sortWith_ascending;
  sort_keeps_ties := sortWith_keeps_ties
|}.

(** ** More samples *)

Module Sample2.

(** A record with a new identifier for the store [Sample.amounts]. *)
Definition fourth : RowData :=
  Sample.record [("id", VStr "4"); ("amount", VNum (Fin 7))].

Definition amountAbove6 : FilterConfig :=
  {| column := "amount"; value := VNum (Fin 6); operator := OpGt |}.

Definition nameHasAn : FilterConfig :=
  {| column := "name"; value := VStr "an"; operator := OpContains |}.

(** Two records whose identifiers differ in case. *)
Definition mixedCase : list RowData :=
  [ Sample.record [("id", VStr "B")];
    Sample.record [("id", VStr "a")] ].

(** Three records, the second with a text that is no date. *)
Definition undated : list RowData :=
  [ Sample.record [("id", VStr "1"); ("date", VStr "2020-01-01")];
    Sample.record [("id", VStr "2"); ("date", VStr "soon")];
    Sample.record [("id", VStr "3"); ("date", VStr "2021-01-01")] ].

(** The hook over the store [Sample.amounts], before any call. *)
Definition hook : Hook.State :=
  let g := @GridDataManager refHost Sample.amounts "id" in
  {| Hook.dataManager := g;
     Hook.gridState := getCurrentState g;
     Hook.searchQuery := "";
     Hook.selectedIds := [];
     Hook.pager := {| currentPage := Fin 0; pageSize := Fin 10 |};
     Hook.sortField := None;
     Hook.sortDirection := Hook.dNone;
     Hook.isLoading := false |}.

End Sample2.

(** * Properties *)

(** ** The sort *)

Section SortFacts.
Context {A : Type} (cmp : A -> A -> Num).

Lemma consistentComparator_incl (l l' : list A) :
  (forall a, In a l' -> In a l) ->
  consistentComparator cmp l = true -> consistentComparator cmp l' = true.
Proof.
  rewrite !consistentComparator_spec. intros Hin Hc a b c Ha Hb Hc'.
  apply Hc; auto.
Qed.

(** A comparator whose signs are those of a total preorder is
    consistent. *)
Lemma consistent_of_order (l : list A) :
  (forall a b, In a l -> In b l ->
     Num.isNeg (cmp a b) = Num.isPos (cmp b a)) ->
  (forall a b c, In a l -> In b l -> In c l ->
     Num.isPos (cmp a b) = false -> Num.isPos (cmp b c) = false ->
     Num.isPos (cmp a c) = false) ->
  consistentComparator cmp l = true.
Proof.
  intros Hanti Htrans. apply consistentComparator_spec.
  intros a b c Ha Hb Hc.
  assert (Hexcl : forall x y, In x l -> In y l ->
            Num.isPos (cmp x y) = true -> Num.isPos (cmp y x) = false).
  { intros x y Hx Hy Hpos. rewrite <- (Hanti x y Hx Hy).
    signs (cmp x y); congruence. }
  unfold consistentAt, tied.
  rewrite !(Hanti a a), !(Hanti a b), !(Hanti b a), !(Hanti b c),
    !(Hanti a c) by assumption.
  pose proof (Hexcl a a Ha Ha) as Xaa.
  pose proof (Hexcl a b Ha Hb) as Xab.
  pose proof (Hexcl b c Hb Hc) as Xbc.
  pose proof (Hexcl c b Hc Hb) as Xcb.
  pose proof (Hexcl b a Hb Ha) as Xba.
  pose proof (Htrans a b c Ha Hb Hc) as Tabc.
  pose proof (Htrans c b a Hc Hb Ha) as Tcba.
  pose proof (Htrans c a b Hc Ha Hb) as Tcab.
  pose proof (Htrans a c b Ha Hc Hb) as Tacb.
  destruct (Num.isPos (cmp a a)), (Num.isPos (cmp a b)),
    (Num.isPos (cmp b a)), (Num.isPos (cmp b c)), (Num.isPos (cmp c b)),
    (Num.isPos (cmp a c)), (Num.isPos (cmp c a)); cbn in *;
    try reflexivity; exfalso; auto using Bool.diff_true_false;
    intuition discriminate.
Qed.

(** At most one arrangement of an array is ascending and keeps the ties
    in place. *)
Lemma ascending_stable_unique (l1 l2 : list A) :
  consistentComparator cmp l1 = true ->
  Permutation l1 l2 ->
  StronglySorted (fun a b => Num.isPos (cmp a b) = false) l1 ->
  StronglySorted (fun a b => Num.isPos (cmp a b) = false) l2 ->
  (forall a, In a l1 ->
     List.filter (tied cmp a) l1 = List.filter (tied cmp a) l2) ->
  l1 = l2.
Proof.
  revert l2. induction l1 as [|x t1 IH]; intros l2 Hc Hp H1 H2 Hf.
  - now apply Permutation_nil in Hp.
  - destruct l2 as [|y t2];
      [symmetry in Hp; now apply Permutation_nil in Hp|].
    assert (Hx : In x (x :: t1)) by now left.
    assert (Hy : In y (x :: t1)).
    { apply (Permutation_in _ (Permutation_sym Hp)). now left. }
    assert (Hxx : tied cmp x x = true) by (eapply tied_refl; eauto).
    assert (Hxy : tied cmp x y = true).
    { apply (tied_order cmp _ Hc x y Hx Hy). split.
      - destruct Hy as [<-|Hy].
        + now apply (tied_order cmp _ Hc x x Hx Hx).
        + apply StronglySorted_inv in H1 as [_ Hall].
          now apply (proj1 (List.Forall_forall _ _) Hall).
      - assert (Hx2 : In x (y :: t2)) by (apply (Permutation_in _ Hp); now left).
        destruct Hx2 as [<-|Hx2].
        + now apply (tied_order cmp _ Hc y y Hy Hy), (tied_refl cmp _ Hc).
        + apply StronglySorted_inv in H2 as [_ Hall].
          now apply (proj1 (List.Forall_forall _ _) Hall). }
    pose proof (Hf x Hx) as Hfx. cbn [List.filter] in Hfx.
    rewrite Hxx, Hxy in Hfx. injection Hfx as <- _.
    f_equal. apply IH.
    + apply (consistentComparator_incl (x :: t1)); [|exact Hc].
      intros a Ha. now right.
    + now apply Permutation_cons_inv in Hp.
    + now apply StronglySorted_inv in H1.
    + now apply StronglySorted_inv in H2.
    + intros a Ha. specialize (Hf a (or_intror Ha)).
      cbn [List.filter] in Hf.
      destruct (tied cmp a x); [now injection Hf|exact Hf].
Qed.

Lemma sortWith_fixed (l : list A) :
  StronglySorted (fun a b => Num.isPos (cmp a b) = false) l ->
  sortWith cmp l = l.
Proof.
  induction 1 as [|x l Hs IH Hall]; [reflexivity|].
  cbn [sortWith]. rewrite IH. destruct l as [|y l]; [reflexivity|].
  cbn [insertSorted].
  now rewrite (proj1 (List.Forall_forall _ _) Hall y (or_introl eq_refl)).
Qed.

End SortFacts.

Lemma consistentComparator_ext {A : Type} (cmp cmp' : A -> A -> Num)
    (l : list A) :
  (forall a b, In a l -> In b l -> cmp a b = cmp' a b) ->
  consistentComparator cmp l = true -> consistentComparator cmp' l = true.
Proof.
  rewrite !consistentComparator_spec. intros Heq Hc a b c Ha Hb Hc'.
  specialize (Hc a b c Ha Hb Hc'). unfold consistentAt, tied in *.
  now rewrite <- !Heq by assumption.
Qed.

Lemma sortWith_ext {A : Type} (cmp cmp' : A -> A -> Num) (l : list A) :
  (forall a b, cmp a b = cmp' a b) -> sortWith cmp l = sortWith cmp' l.
Proof.
  intros Heq. induction l as [|x l IH]; [reflexivity|].
  cbn [sortWith]. rewrite IH. generalize (sortWith cmp' l) as s.
  induction s as [|y s IHs]; [reflexivity|].
  cbn [insertSorted]. now rewrite Heq, IHs.
Qed.

Lemma StronglySorted_weaken {A : Type} (R R' : A -> A -> Prop) (l : list A) :
  (forall a b, In a l -> In b l -> R a b -> R' a b) ->
  StronglySorted R l -> StronglySorted R' l.
Proof.
  intros Himp Hs. induction Hs as [|x l Hs IH Hall]; constructor.
  - apply IH. intros a b Ha Hb. apply Himp; now right.
  - apply List.Forall_forall. intros z Hz.
    apply Himp; [now left|now right|].
    now apply (proj1 (List.Forall_forall _ _) Hall).
Qed.

(** *** [Array.prototype.sort] on any host *)

Section HostSort.
Context {host : Host} (cmp : string -> string -> Num).

Lemma sort_In (l : list string) (x : string) :
  In x (sort cmp l) <-> In x l.
Proof.
  split; apply Permutation_in;
    [apply sort_perm | symmetry; apply sort_perm].
Qed.

Lemma sort_NoDup (l : list string) :
  List.NoDup l -> List.NoDup (sort cmp l).
Proof.
  apply Permutation_NoDup. symmetry. apply sort_perm.
Qed.

Lemma sort_consistent (l : list string) :
  consistentComparator cmp l = true ->
  consistentComparator cmp (sort cmp l) = true.
Proof.
  apply consistentComparator_incl. intros a. apply sort_In.
Qed.

(** With a consistent comparator every host returns the same array: the
    one the insertion sort computes. *)
Lemma sort_sortWith (l : list string) :
  consistentComparator cmp l = true -> sort cmp l = sortWith cmp l.
Proof.
  intros Hc. apply (ascending_stable_unique cmp).
  - now apply sort_consistent.
  - rewrite sort_perm. symmetry. apply sortWith_perm.
  - now apply sort_ascending.
  - now apply sortWith_ascending.
  - intros a Ha. apply (proj1 (sort_In _ _)) in Ha.
    now rewrite sort_keeps_ties, sortWith_keeps_ties by assumption.
Qed.

Lemma sort_fixed (l : list string) :
  consistentComparator cmp l = true ->
  StronglySorted (fun a b => Num.isPos (cmp a b) = false) l ->
  sort cmp l = l.
Proof.
  intros Hc Hs. rewrite sort_sortWith by exact Hc.
  now apply sortWith_fixed.
Qed.

Lemma sort_idempotent (l : list string) :
  consistentComparator cmp l = true ->
  sort cmp (sort cmp l) = sort cmp l.
Proof.
  intros Hc. apply sort_fixed;
    [now apply sort_consistent|now apply sort_ascending].
Qed.

End HostSort.

(** ** Numbers *)

Lemma isPos_sub (a b : Num) :
  a <> NaN -> b <> NaN -> Num.isPos (Num.sub a b) = Num.ltb b a.
Proof.
  destruct a as [| |x|], b as [| |y|]; cbn; try congruence; intros _ _.
  destruct (Z.ltb_spec 0 (x - y)), (Z.ltb_spec y x); try reflexivity; lia.
Qed.

Lemma isNeg_sub (a b : Num) :
  a <> NaN -> b <> NaN -> Num.isNeg (Num.sub a b) = Num.ltb a b.
Proof.
  destruct a as [| |x|], b as [| |y|]; cbn; try congruence; intros _ _.
  destruct (Z.ltb_spec (x - y) 0), (Z.ltb_spec x y); try reflexivity; lia.
Qed.

Lemma isPos_sub_self (a : Num) : Num.isPos (Num.sub a a) = false.
Proof.
  destruct a as [| |x|]; cbn; try reflexivity.
  rewrite Z.sub_diag. reflexivity.
Qed.

Lemma isNeg_sub_self (a : Num) : Num.isNeg (Num.sub a a) = false.
Proof.
  destruct a as [| |x|]; cbn; try reflexivity.
  rewrite Z.sub_diag. reflexivity.
Qed.

Lemma ltb_asym (a b : Num) : Num.ltb a b = true -> Num.ltb b a = false.
Proof.
  destruct a as [| |x|], b as [| |y|]; cbn; try congruence.
  rewrite Z.ltb_lt, Z.ltb_ge. lia.
Qed.

Lemma ltb_false_trans (a b c : Num) :
  a <> NaN -> b <> NaN -> c <> NaN ->
  Num.ltb b a = false -> Num.ltb c b = false -> Num.ltb c a = false.
Proof.
  destruct a as [| |x|], b as [| |y|], c as [| |z|]; cbn; try congruence.
  intros _ _ _. rewrite !Z.ltb_ge. lia.
Qed.

(** ** Filtering *)

Lemma filter_twice {A : Type} (p q : A -> bool) (l : list A) :
  List.filter q (List.filter p l) = List.filter (fun x => p x && q x) l.
Proof.
  induction l as [|x l IH]; [reflexivity|].
  cbn [List.filter]. destruct (p x); cbn [List.filter andb];
    [destruct (q x)|]; now rewrite IH.
Qed.

Lemma filter_chain {A B : Type} (p : B -> A -> bool) (fs : list B)
    (l : list A) :
  fold_left (fun acc f => List.filter (p f) acc) fs l =
  List.filter (fun x => forallb (fun f => p f x) fs) l.
Proof.
  revert l. induction fs as [|f fs IH]; intros l; cbn [fold_left forallb].
  - induction l as [|x l IHl]; [reflexivity|].
    cbn [List.filter]. now rewrite <- IHl.
  - rewrite IH. apply filter_twice.
Qed.

Section EngineFacts.
Context {host : Host}.

(** [applyCurrentFilters] keeps exactly the records that pass the active
    column filters; no search text takes part. *)
Lemma applyCurrentFilters_filteredIndex (skipSearch : bool) (g : Engine) :
  filteredIndex (applyCurrentFilters skipSearch g) =
  List.filter (passesAll g) (displayIndex g).
Proof. apply filter_chain. Qed.

Lemma applyCurrentFilters_incl (skipSearch : bool) (g : Engine) (id : RowId) :
  In id (filteredIndex (applyCurrentFilters skipSearch g)) ->
  In id (displayIndex g).
Proof.
  rewrite applyCurrentFilters_filteredIndex, filter_In. tauto.
Qed.

Lemma sortBy_displayIndex (col : string) (dir : SortDirection) (g : Engine) :
  displayIndex (snd (sortBy col dir g)) =
  sort (compareIds g col dir) (displayIndex g).
Proof. reflexivity. Qed.

Lemma sortBy_perm (col : string) (dir : SortDirection) (g : Engine) :
  Permutation (displayIndex (snd (sortBy col dir g))) (displayIndex g).
Proof. rewrite sortBy_displayIndex. apply sort_perm. Qed.

Lemma sortBy_filteredIndex (col : string) (dir : SortDirection) (g : Engine) :
  filteredIndex (snd (sortBy col dir g)) =
  List.filter (passesAll g) (displayIndex (snd (sortBy col dir g))).
Proof.
  unfold sortBy. cbn [snd]. now rewrite applyCurrentFilters_filteredIndex.
Qed.

Lemma passesAll_sameStore (g g' : Engine) (id : RowId) :
  sameStore g g' -> passesAll g' id = passesAll g id.
Proof.
  intros (Hr & Hf & _). unfold passesAll, passes, rowOf.
  now rewrite Hr, Hf.
Qed.

Lemma updateSortValue_frame (id : RowId) (col : string) (v : Value)
    (g : Engine) :
  sameStore g (updateSortValue id col v g) /\
  displayIndex (updateSortValue id col v g) = displayIndex g /\
  currentSort (updateSortValue id col v g) = currentSort g.
Proof.
  unfold updateSortValue, sameStore.
  repeat case_match; cbn; auto.
Qed.

Lemma sortBy_sameStore (col : string) (dir : SortDirection) (g : Engine) :
  sameStore g (snd (sortBy col dir g)).
Proof. repeat split. Qed.

Lemma resortOnEdit_frame (col : string) (g : Engine) :
  sameStore g (resortOnEdit col g) /\
  Permutation (displayIndex (resortOnEdit col g)) (displayIndex g).
Proof.
  unfold resortOnEdit. repeat case_match;
    (split; [repeat split | try reflexivity; apply sortBy_perm]).
Qed.

Lemma resortOnAdd_frame (g : Engine) :
  sameStore g (resortOnAdd g) /\
  Permutation (displayIndex (resortOnAdd g)) (displayIndex g).
Proof.
  unfold resortOnAdd. repeat case_match;
    (split; [repeat split | try reflexivity; apply sortBy_perm]).
Qed.

Lemma updateSearchIndex_frame (id : RowId) (col : string) (row : RowData)
    (g : Engine) :
  sameStore g (updateSearchIndex id col row g) /\
  displayIndex (updateSearchIndex id col row g) = displayIndex g /\
  currentSort (updateSearchIndex id col row g) = currentSort g /\
  sortValues (updateSearchIndex id col row g) = sortValues g.
Proof.
  unfold updateSearchIndex. case_match; repeat split.
Qed.

Lemma sameStore_trans (g1 g2 g3 : Engine) :
  sameStore g1 g2 -> sameStore g2 g3 -> sameStore g1 g3.
Proof.
  unfold sameStore. intros (-> & -> & ->) (-> & -> & ->). auto.
Qed.

(** *** What the mutating methods do to the store and the indices *)

Lemma updateCell_effect (id : RowId) (col : string) (v : Value) (g : Engine)
    (row : RowData) :
  rowMap g !! id = Some row ->
  let g' := snd (updateCell id col v g) in
  fst (updateCell id col v g) = Some (getCurrentState g') /\
  rowMap g' = <[id := <[col := v]> row]> (rowMap g) /\
  Permutation (displayIndex g') (displayIndex g) /\
  filteredIndex g' = List.filter (passesAll g') (displayIndex g').
Proof.
  intros Hrow. unfold updateCell. rewrite Hrow. cbv zeta. cbn [fst snd].
  set (g1 := withRowMap g _).
  set (g2 := updateSearchIndex id col _ g1).
  set (g3 := updateSortValue id col v g2).
  set (g4 := resortOnEdit col g3).
  destruct (updateSearchIndex_frame id col (<[col:=v]> row) g1)
    as ((Hr2 & _ & _) & Hd2 & _).
  destruct (updateSortValue_frame id col v g2) as ((Hr3 & _ & _) & Hd3 & _).
  destruct (resortOnEdit_frame col g3) as ((Hr4 & _ & _) & Hd4).
  fold g2 in Hr2, Hd2. fold g3 in Hr3, Hd3. fold g4 in Hr4, Hd4.
  split; [reflexivity|]. split; [|split].
  - change (rowMap g4 = rowMap g1). congruence.
  - change (Permutation (displayIndex g4) (displayIndex g1)).
    rewrite Hd4, Hd3, Hd2. reflexivity.
  - rewrite applyCurrentFilters_filteredIndex. reflexivity.
Qed.


Lemma addRow_effect (row : RowData) (g : Engine) :
  rowMap g !! rowIdOf (idField g) row = None ->
  let id := rowIdOf (idField g) row in
  let g' := snd (addRow row g) in
  fst (addRow row g) = Some (getCurrentState g') /\
  rowMap g' = <[id := row]> (rowMap g) /\
  Permutation (displayIndex g') (displayIndex g ++ [id])%list /\
  filteredIndex g' = List.filter (passesAll g') (displayIndex g').
Proof.
  unfold rowIdOf. intros Hrow. unfold addRow. rewrite Hrow.
  cbv zeta. cbn [fst snd].
  set (g3 := precomputeSortValues _ row _).
  destruct (resortOnAdd_frame g3) as ((Hr & _ & _) & Hd).
  split; [reflexivity|]. split; [exact Hr|]. split; [exact Hd|].
  now rewrite applyCurrentFilters_filteredIndex.
Qed.

Lemma differs_true (id rowId : RowId) : differs id rowId = true <-> rowId <> id.
Proof.
  unfold differs. rewrite Bool.negb_true_iff.
  destruct (String.eqb_spec rowId id); split; congruence.
Qed.

Lemma deleteRow_effect (id : RowId) (g : Engine) :
  is_Some (rowMap g !! id) ->
  let g' := snd (deleteRow id g) in
  fst (deleteRow id g) = Some (getCurrentState g') /\
  rowMap g' = delete id (rowMap g) /\
  displayIndex g' = List.filter (differs id) (displayIndex g) /\
  filteredIndex g' = List.filter (differs id) (filteredIndex g).
Proof.
  intros [row Hrow]. unfold deleteRow. rewrite Hrow. repeat split.
Qed.

Lemma filterBySearch_frame (query : string) (g : Engine) :
  let g' := snd (filterBySearch query g) in
  rowMap g' = rowMap g /\ displayIndex g' = displayIndex g /\
  forall id, In id (filteredIndex g') -> In id (displayIndex g).
Proof.
  unfold filterBySearch. case_match; cbn [snd]; repeat split.
  - apply applyCurrentFilters_incl.
  - intros id. cbn. rewrite filter_In. tauto.
Qed.

(** *** Index consistency *)

Lemma Permutation_in_iff {A : Type} (l l' : list A) (x : A) :
  Permutation l l' -> In x l <-> In x l'.
Proof.
  intros Hp. split; apply Permutation_in; [exact Hp | now symmetry].
Qed.

Lemma exec_consistent (g : Engine) (c : Command) :
  consistent g -> consistent (exec g c).
Proof.
  intros [Hsub Hkeys]. destruct c as [col dir|id col v|row|id|q|f|col|];
    cbn [exec].
  - split.
    + intros id. rewrite sortBy_filteredIndex, filter_In. tauto.
    + intros id. rewrite sortBy_displayIndex, sort_In. apply Hkeys.
  - destruct (rowMap g !! id) as [row|] eqn:Hrow.
    + destruct (updateCell_effect id col v g row Hrow) as (_ & Hr & Hd & Hf).
      split.
      * intros k. rewrite Hf, filter_In. tauto.
      * intros k. rewrite Hr.
        rewrite (Permutation_in_iff _ _ k Hd), Hkeys, lookup_insert_is_Some'.
        split; [auto|]. intros [<-|Hk]; [now rewrite Hrow | exact Hk].
    + unfold updateCell. rewrite Hrow. now split.
  - destruct (rowMap g !! rowIdOf (idField g) row) as [old|] eqn:Hrow.
    + unfold addRow. unfold rowIdOf in Hrow. rewrite Hrow. now split.
    + destruct (addRow_effect row g Hrow) as (_ & Hr & Hd & Hf).
      split.
      * intros k. rewrite Hf, filter_In. tauto.
      * intros k. rewrite Hr.
        rewrite (Permutation_in_iff _ _ k Hd), in_app_iff, Hkeys,
          lookup_insert_is_Some'.
        cbn [In]. tauto.
  - destruct (rowMap g !! id) as [row|] eqn:Hrow.
    + destruct (deleteRow_effect id g (mk_is_Some _ _ Hrow))
        as (_ & Hr & Hd & Hf).
      split.
      * intros k. rewrite Hf, Hd, !filter_In.
        intros [Hk Hne]. auto.
      * intros k. rewrite Hr, Hd, filter_In, Hkeys, differs_true,
          lookup_delete_is_Some.
        split; intros [? ?]; split; auto.
    + unfold deleteRow. rewrite Hrow. now split.
  - destruct (filterBySearch_frame q g) as (Hr & Hd & Hf).
    split.
    + intros k Hk. rewrite Hd. now apply Hf.
    + intros k. rewrite Hr, Hd. apply Hkeys.
  - split; [|exact Hkeys].
    intros k. unfold addFilter. cbn [snd]. apply applyCurrentFilters_incl.
  - split; [|exact Hkeys].
    intros k. unfold removeFilter. cbn [snd]. apply applyCurrentFilters_incl.
  - split; [|exact Hkeys]. intros k Hk. exact Hk.
Qed.


Lemma exec_NoDup (g : Engine) (c : Command) :
  consistent g -> List.NoDup (displayIndex g) ->
  List.NoDup (displayIndex (exec g c)).
Proof.
  intros [_ Hkeys] Hnd.
  destruct c as [col dir|id col v|row|id|q|f|col|]; cbn [exec];
    try exact Hnd.
  - rewrite sortBy_displayIndex. now apply sort_NoDup.
  - destruct (rowMap g !! id) as [row|] eqn:Hrow.
    + destruct (updateCell_effect id col v g row Hrow) as (_ & _ & Hd & _).
      apply (Permutation_NoDup (Permutation_sym Hd) Hnd).
    + unfold updateCell. now rewrite Hrow.
  - destruct (rowMap g !! rowIdOf (idField g) row) as [old|] eqn:Hrow.
    + unfold addRow. unfold rowIdOf in Hrow. now rewrite Hrow.
    + destruct (addRow_effect row g Hrow) as (_ & _ & Hd & _).
      apply (Permutation_NoDup (Permutation_sym Hd)).
      apply (Permutation_NoDup (Permutation_cons_append _ _)).
      constructor; [|exact Hnd].
      intros Hk. apply Hkeys in Hk. rewrite Hrow in Hk.
      now destruct Hk.
  - destruct (rowMap g !! id) as [row|] eqn:Hrow.
    + destruct (deleteRow_effect id g (mk_is_Some _ _ Hrow))
        as (_ & _ & Hd & _).
      rewrite Hd. now apply List.NoDup_filter.
    + unfold deleteRow. now rewrite Hrow.
  - destruct (filterBySearch_frame q g) as (_ & Hd & _).
    now rewrite Hd.
Qed.

Lemma run_consistent (cs : list Command) (g : Engine) :
  consistent g -> consistent (run cs g).
Proof.
  revert g. induction cs as [|c cs IH]; intros g Hg; [exact Hg|].
  apply IH. now apply exec_consistent.
Qed.

Lemma run_NoDup (cs : list Command) (g : Engine) :
  consistent g -> List.NoDup (displayIndex g) ->
  List.NoDup (displayIndex (run cs g)).
Proof.
  revert g. induction cs as [|c cs IH]; intros g Hg Hnd; [exact Hnd|].
  apply IH; [now apply exec_consistent | now apply exec_NoDup].
Qed.

(** The constructor's loop. *)
Lemma loadRows_effect (rows : list RowData) (g : Engine) :
  (forall id, In id (displayIndex g) <-> is_Some (rowMap g !! id)) ->
  let g' := fold_left loadRow rows g in
  (forall id, In id (displayIndex g') <-> is_Some (rowMap g' !! id)) /\
  displayIndex g' = (displayIndex g ++ map (rowIdOf (idField g)) rows)%list /\
  idField g' = idField g.
Proof.
  revert g. induction rows as [|row rows IH]; intros g Hkeys; cbn zeta.
  - cbn. now rewrite app_nil_r.
  - cbn [fold_left map].
    destruct (IH (loadRow g row)) as (Hk & Hd & Hi).
    + intros id. cbn. rewrite in_app_iff, Hkeys, lookup_insert_is_Some'.
      cbn [In]. tauto.
    + split; [exact Hk|]. split; [|exact Hi].
      rewrite Hd. cbn. now rewrite <- app_assoc.
Qed.

Lemma GridDataManager_displayIndex (rows : list RowData) (idf : string) :
  displayIndex (GridDataManager rows idf) = map (rowIdOf idf) rows.
Proof.
  unfold GridDataManager. cbn.
  destruct (loadRows_effect rows (emptyEngine idf)) as (_ & Hd & _).
  - intros id. cbn. rewrite lookup_empty. split; [intros []|].
    intros [x Hx]. discriminate.
  - exact Hd.
Qed.

Lemma GridDataManager_consistent (rows : list RowData) (idf : string) :
  consistent (GridDataManager rows idf).
Proof.
  unfold GridDataManager. cbn zeta. split; [intros id Hid; exact Hid|].
  cbn.
  destruct (loadRows_effect rows (emptyEngine idf)) as (Hk & _ & _).
  - intros id. cbn. rewrite lookup_empty. split; [intros []|].
    intros [x Hx]. discriminate.
  - exact Hk.
Qed.

(** Index consistency holds after every sequence of commands, whatever
    the constructor was given; the display index has no duplicate as
    soon as the records given to the constructor have distinct
    identifiers. *)
Lemma index_consistency (rows : list RowData) (idf : string)
    (cs : list Command) :
  let g := run cs (GridDataManager rows idf) in
  consistent g /\
  (List.NoDup (map (rowIdOf idf) rows) -> List.NoDup (displayIndex g)).
Proof.
  split.
  - apply run_consistent, GridDataManager_consistent.
  - intros Hnd. apply run_NoDup; [apply GridDataManager_consistent|].
    now rewrite GridDataManager_displayIndex.
Qed.

(** What the commands that filter again leave in the filtered index: the
    records of the display index that pass the column filters, whatever
    was searched for before. *)
Lemma refilter_drops_search (g : Engine) (c : Command) :
  refilters g c ->
  filteredIndex (exec g c) =
  List.filter (passesAll (exec g c)) (displayIndex (exec g c)).
Proof.
  destruct c as [col dir|id col v|row|id|q|f|col|]; cbn [refilters exec];
    try contradiction.
  - intros _. unfold sortBy. cbn [snd].
    now rewrite applyCurrentFilters_filteredIndex.
  - intros [row Hrow].
    now destruct (updateCell_effect id col v g row Hrow) as (_ & _ & _ & Hf).
  - intros Hrow.
    now destruct (addRow_effect row g Hrow) as (_ & _ & _ & Hf).
  - intros _. unfold addFilter. cbn [snd].
    now rewrite applyCurrentFilters_filteredIndex.
  - intros _. unfold removeFilter. cbn [snd].
    now rewrite applyCurrentFilters_filteredIndex.
Qed.

Lemma reachable_keysOK (rows : list RowData) (idf : string)
    (cs : list Command) :
  keysOK (run cs (GridDataManager rows idf)).
Proof.
  intros id Hid.
  now apply (proj2 (proj1 (index_consistency rows idf cs))).
Qed.

(** *** Search, and the sort cache on an edit *)

Lemma filterBySearch_nonempty (query : string) (g : Engine) :
  query <> "" ->
  filteredIndex (snd (filterBySearch query g)) =
  List.filter (matchesSearch g (toLowerCase query)) (displayIndex g).
Proof.
  intros Hq. unfold filterBySearch.
  destruct (String.eqb_spec query ""); [contradiction|reflexivity].
Qed.

Lemma resortOnEdit_sortValues (col : string) (g : Engine) :
  sortValues (resortOnEdit col g) = sortValues g.
Proof. unfold resortOnEdit. repeat case_match; reflexivity. Qed.

Lemma updateCell_sortValues (id : RowId) (col : string) (v : Value)
    (g : Engine) (row : RowData) :
  rowMap g !! id = Some row ->
  sortValues (snd (updateCell id col v g)) =
  sortValues (updateSortValue id col v g).
Proof.
  intros Hrow. unfold updateCell. rewrite Hrow. cbv zeta. cbn [snd].
  change (sortValues (applyCurrentFilters false ?x)) with (sortValues x).
  rewrite resortOnEdit_sortValues.
  unfold updateSearchIndex, updateSortValue.
  destruct (inColumns col SEARCHABLE_COLUMNS);
    cbn [sortValues withSearchIndex withRowMap];
    repeat case_match; reflexivity.
Qed.

(** On a numeric column a value that is no number leaves the whole sort
    cache as it was. *)
Lemma updateCell_numeric_unparsable (id : RowId) (col : string) (v : Value)
    (g : Engine) (row : RowData) :
  rowMap g !! id = Some row ->
  inColumns col NUMERIC_COLUMNS = true ->
  toNumber v = NaN ->
  fst (updateCell id col v g) <> None /\
  sortValues (snd (updateCell id col v g)) = sortValues g.
Proof.
  intros Hrow Hcol Hnan. split.
  - unfold updateCell. rewrite Hrow. discriminate.
  - rewrite (updateCell_sortValues _ _ _ _ _ Hrow). unfold updateSortValue.
    destruct (sortValues g !! col); [|reflexivity].
    assert (Hdate : inColumns col DATE_COLUMNS = false).
    { unfold inColumns, NUMERIC_COLUMNS in Hcol. cbn [existsb] in Hcol.
      repeat (apply Bool.orb_true_iff in Hcol as [Hcol|Hcol];
              [apply String.eqb_eq in Hcol; subst col; reflexivity|]).
      discriminate. }
    rewrite Hdate, Hnan. cbn [andb Num.isNaN].
    now destruct (_ && _ && _).
Qed.

(** On a date column a non-empty value that is no date overwrites the
    cached key with [NaN]. *)
Lemma updateCell_date_unparsable (id : RowId) (col : string) (v : Value)
    (g : Engine) (row : RowData) (m : gmap RowId Num) :
  rowMap g !! id = Some row ->
  sortValues g !! col = Some m ->
  inColumns col DATE_COLUMNS = true ->
  truthy v = true ->
  dateGetTime v = NaN ->
  sortValues (snd (updateCell id col v g)) !! col = Some (<[id := NaN]> m).
Proof.
  intros Hrow Hm Hcol Hv Hnan.
  rewrite (updateCell_sortValues _ _ _ _ _ Hrow). unfold updateSortValue.
  rewrite Hm, Hcol, Hv, Hnan. cbn.
  rewrite lookup_alter_eq, Hm. reflexivity.
Qed.

(** Claim C4.  [addRow] on a record whose identifier is already in the
    row store returns [null] and leaves every field of the engine as it
    was. *)
Theorem addRow_duplicate (row : RowData) (g : Engine) :
  is_Some (rowMap g !! rowIdOf (idField g) row) ->
  addRow row g = (None, g).
Proof.
  intros [old Hold]. unfold addRow. unfold rowIdOf in Hold.
  now rewrite Hold.
Qed.

(** Claim C10.  [updateCell] on an existing identifier, for any column
    and value, leaves the key set of the row store unchanged and every
    other row as it was, and the row read back under the same identifier
    is the old record with the column set to the new value. *)
Theorem updateCell_keeps_keys (id : RowId) (col : string) (v : Value)
    (g : Engine) (row : RowData) :
  rowMap g !! id = Some row ->
  let g' := snd (updateCell id col v g) in
  dom (rowMap g') =@{gset RowId} dom (rowMap g) /\
  (forall k, k <> id -> rowMap g' !! k = rowMap g !! k) /\
  getRowById id g' = Some (<[col := v]> row) /\
  (getRowById id g' ≫= (.!! col)) = Some v.
Proof.
  intros Hrow.
  destruct (updateCell_effect id col v g row Hrow) as (_ & Hr & _).
  cbv zeta. unfold getRowById. rewrite Hr. repeat split.
  - apply dom_insert_lookup_L. now rewrite Hrow.
  - intros k Hk. now rewrite lookup_insert_ne.
  - apply lookup_insert_eq.
  - rewrite lookup_insert_eq. cbn. apply lookup_insert_eq.
Qed.

(** *** The comparator of [sortBy] *)

Lemma localeCompare_refl `{!LocaleOrder host} (s : string) :
  localeCompare s s = 0.
Proof.
  pose proof (localeCompare_antisym s s) as Hs.
  destruct (localeCompare s s); cbn in Hs; [reflexivity|discriminate..].
Qed.

Lemma compareIds_none (g : Engine) (col : string) (a b : RowId) :
  compareIds g col none a b = Fin (localeCompare (idString g a) (idString g b)).
Proof. reflexivity. Qed.

Lemma compareIds_cached (g : Engine) (col : string) (dir : SortDirection)
    (m : gmap RowId Num) (a b : RowId) :
  sortValues g !! col = Some m -> dir <> none ->
  compareIds g col dir a b = cachedCompare m dir a b.
Proof.
  intros Hm Hdir. unfold compareIds, cachedCompare, cachedValue.
  rewrite Hm. destruct dir; [| |congruence];
    destruct (m !! a), (m !! b); reflexivity.
Qed.

(** The comparator for [none] is consistent when [localeCompare] is a
    total preorder. *)
Lemma compareIds_none_consistent `{!LocaleOrder host} (g : Engine)
    (col : string) (l : list RowId) :
  consistentComparator (compareIds g col none) l = true.
Proof.
  apply consistent_of_order.
  - intros a b _ _. rewrite !compareIds_none.
    unfold Num.isNeg, Num.isPos, Num.ltb.
    pose proof (localeCompare_antisym (idString g a) (idString g b)) as Hs.
    destruct (Z.ltb_spec (localeCompare (idString g a) (idString g b)) 0),
      (Z.ltb_spec 0 (localeCompare (idString g b) (idString g a)));
      try reflexivity; lia.
  - intros a b c _ _ _. rewrite !compareIds_none.
    unfold Num.isPos, Num.ltb. rewrite !Z.ltb_ge. apply localeCompare_trans.
Qed.

(** The comparator on cached values is consistent when none of them is
    [NaN]. *)
Lemma cachedCompare_consistent (m : gmap RowId Num) (dir : SortDirection)
    (l : list RowId) :
  (forall id, In id l -> cachedValue m id <> NaN) ->
  consistentComparator (cachedCompare m dir) l = true.
Proof.
  intros Hval. apply consistent_of_order.
  - intros a b Ha Hb. unfold cachedCompare.
    destruct dir; rewrite isNeg_sub, isPos_sub by auto; reflexivity.
  - intros a b c Ha Hb Hc. unfold cachedCompare.
    destruct dir; rewrite !isPos_sub by auto; intros H1 H2;
      [apply (ltb_false_trans _ (cachedValue m b))
      |apply (ltb_false_trans _ (cachedValue m b))
      |apply (ltb_false_trans _ (cachedValue m b))]; auto.
Qed.

Lemma compareIds_cached_consistent (g : Engine) (col : string)
    (dir : SortDirection) (m : gmap RowId Num) (l : list RowId) :
  sortValues g !! col = Some m -> dir <> none ->
  (forall id, In id l -> cachedValue m id <> NaN) ->
  consistentComparator (compareIds g col dir) l = true.
Proof.
  intros Hm Hdir Hval.
  apply (consistentComparator_ext (cachedCompare m dir)).
  - intros a b _ _. symmetry. now apply compareIds_cached.
  - now apply cachedCompare_consistent.
Qed.

(** *** What the comparator ties *)

Lemma tied_sub_self (a : Num) :
  negb (Num.isNeg (Num.sub a a)) && negb (Num.isPos (Num.sub a a)) = true.
Proof. now rewrite isNeg_sub_self, isPos_sub_self. Qed.

Lemma sameKey_cached (g : Engine) (col : string) (dir : SortDirection)
    (m : gmap RowId Num) (a b : RowId) :
  sortValues g !! col = Some m -> dir <> none ->
  cachedValue m a = cachedValue m b ->
  sameKey g col dir a b = true.
Proof.
  intros Hm Hdir Heq. unfold sameKey, tied.
  rewrite (compareIds_cached g col dir m) by assumption.
  unfold cachedCompare. rewrite Heq.
  destruct dir; apply tied_sub_self.
Qed.

Lemma sameKey_numbers (g : Engine) (col : string) (dir : SortDirection)
    (a b : RowId) (x : Num) :
  sortValues g !! col = None -> dir <> none ->
  field (rowOf g a) col = VNum x -> field (rowOf g b) col = VNum x ->
  sameKey g col dir a b = true.
Proof.
  intros Hm Hdir Ha Hb. unfold sameKey, tied, compareIds.
  rewrite Hm, Ha, Hb.
  destruct dir; [| |congruence]; apply tied_sub_self.
Qed.

Lemma sameKey_strings `{!LocaleOrder host} (g : Engine) (col : string)
    (dir : SortDirection) (a b : RowId) :
  sortValues g !! col = None -> dir <> none ->
  isNumber (field (rowOf g a) col) && isNumber (field (rowOf g b) col)
    = false ->
  toString (orElse (field (rowOf g a) col) (VStr "")) =
  toString (orElse (field (rowOf g b) col) (VStr "")) ->
  sameKey g col dir a b = true.
Proof.
  intros Hm Hdir Hnum Heq. unfold sameKey, tied, compareIds.
  rewrite Hm.
  destruct dir; [| |congruence];
    destruct (field (rowOf g a) col) as [| |x|x|x],
      (field (rowOf g b) col) as [| |y|y|y];
    try discriminate Hnum; cbv beta iota zeta;
    try rewrite Heq; rewrite localeCompare_refl; reflexivity.
Qed.

(** Claim C5, amended.  [sortBy(column, 'none')] leaves the display
    index, whatever its order was, as a rearrangement of itself in
    ascending order of the records' stringified identifier-field values,
    the order being the one [localeCompare] gives on the host. *)
Theorem sortBy_none_sorted `{!LocaleOrder host} (g : Engine) (col : string) :
  keysOK g ->
  let g' := snd (sortBy col none g) in
  Permutation (displayIndex g') (displayIndex g) /\
  StronglySorted
    (fun a b => localeCompare (idString g' a) (idString g' b) <= 0)
    (displayIndex g').
Proof.
  intros _. split; [apply sortBy_perm|].
  rewrite sortBy_displayIndex.
  eapply StronglySorted_weaken;
    [|apply sort_ascending, compareIds_none_consistent].
  intros a b _ _. cbv beta. rewrite compareIds_none.
  unfold Num.isPos, Num.ltb. rewrite Z.ltb_ge. intros Hle. exact Hle.
Qed.

(** Claim C6, amended.  For the directions [asc] and [desc], when the
    comparator is consistent on the display index, the records with the
    same comparison key as a given one come out of [sortBy] in the order
    they had in the display index before the call: the sort is stable
    with respect to the current display order. *)
Theorem sortBy_stable (g : Engine) (col : string) (dir : SortDirection)
    (id : RowId) :
  keysOK g -> dir <> none ->
  consistentComparator (compareIds g col dir) (displayIndex g) = true ->
  In id (displayIndex g) ->
  List.filter (sameKey g col dir id)
    (displayIndex (snd (sortBy col dir g))) =
  List.filter (sameKey g col dir id) (displayIndex g).
Proof.
  intros _ _ Hc Hid. rewrite sortBy_displayIndex.
  now apply sort_keeps_ties.
Qed.

(** Claim C8.  On a column with a sort cache, [sortBy] with [asc] or
    [desc] compares two rows by their cached values alone, a missing
    entry counting as zero, and rearranges the display index; when no
    cached value of the display index is [NaN], the result is the stable
    arrangement in ascending, respectively descending, order of these
    values. *)
Theorem sortBy_cached (g : Engine) (col : string) (dir : SortDirection)
    (m : gmap RowId Num) :
  sortValues g !! col = Some m -> dir <> none ->
  let g' := snd (sortBy col dir g) in
  (forall a b, compareIds g col dir a b = cachedCompare m dir a b) /\
  Permutation (displayIndex g') (displayIndex g) /\
  ((forall id, In id (displayIndex g) -> cachedValue m id <> NaN) ->
   displayIndex g' = sortWith (cachedCompare m dir) (displayIndex g) /\
   StronglySorted
     (fun a b =>
        match dir with
        | desc => Num.ltb (cachedValue m a) (cachedValue m b)
        | _ => Num.ltb (cachedValue m b) (cachedValue m a)
        end = false)
     (displayIndex g')).
Proof.
  intros Hm Hdir.
  assert (Hcmp : forall a b, compareIds g col dir a b = cachedCompare m dir a b)
    by (intros a b; now apply compareIds_cached).
  split; [exact Hcmp|]. split; [apply sortBy_perm|].
  intros Hfin.
  assert (Hc : consistentComparator (compareIds g col dir) (displayIndex g)
               = true)
    by now apply (compareIds_cached_consistent g col dir m).
  rewrite sortBy_displayIndex. split.
  - rewrite sort_sortWith by exact Hc. now apply sortWith_ext.
  - eapply StronglySorted_weaken; [|apply sort_ascending, Hc].
    intros a b Ha Hb. apply (proj1 (sort_In _ _ _)) in Ha, Hb.
    cbv beta. rewrite Hcmp. unfold cachedCompare.
    destruct dir; [| |congruence]; rewrite isPos_sub; auto.
Qed.

End EngineFacts.

(** ** Pagination *)

Lemma maxPage_Fin (count : nat) (size : Z) :
  size <> 0 -> maxPage count (Fin size) = Fin (lastPage count size).
Proof.
  intros Hs. unfold maxPage, lastPage. cbn.
  destruct (Z.eqb_spec size 0); [contradiction|reflexivity].
Qed.

Lemma lastPage_nonneg (count : nat) (size : Z) :
  (1 <= count)%nat -> 1 <= size -> 0 <= lastPage count size.
Proof.
  intros Hc Hs. unfold lastPage.
  assert (Hdiv : (- Z.of_nat count) / size < 0).
  { apply Z.div_lt_upper_bound; lia. }
  lia.
Qed.

Lemma max_Fin (a b : Z) : Num.max (Fin a) (Fin b) = Fin (Z.max a b).
Proof.
  cbn. destruct (Z.ltb_spec a b); f_equal; lia.
Qed.

Lemma min_Fin (a b : Z) : Num.min (Fin a) (Fin b) = Fin (Z.min a b).
Proof.
  cbn. destruct (Z.ltb_spec b a); f_equal; lia.
Qed.

(** The page callbacks for a page size of at least one: [goToPage]
    clamps the requested page to [0, max(0, last)], where [last] is
    [ceil(filteredCount / pageSize) - 1]; [prevPage] keeps a page of that
    interval in it; [nextPage] does so when there is at least one
    filtered row; and [setPageSize] moves a page beyond the new last page
    to it (to page 0 when there is no row) and leaves any other page
    alone. *)
Lemma pages_in_range (count : nat) (size cur page : Z) :
  1 <= size ->
  let p := {| currentPage := Fin cur; pageSize := Fin size |} in
  let last := lastPage count size in
  currentPage (goToPage count (Fin page) p) =
    Fin (Z.max 0 (Z.min page last)) /\
  inPages 0 (Z.max 0 last) (currentPage (goToPage count (Fin page) p)) /\
  (0 <= cur <= Z.max 0 last ->
   inPages 0 (Z.max 0 last) (currentPage (prevPage p))) /\
  ((1 <= count)%nat -> 0 <= last /\
   (0 <= cur <= last -> inPages 0 last (currentPage (nextPage count p)))) /\
  (forall size', 1 <= size' -> 0 <= cur ->
   let p' := handleSetPageSize count (Fin size') p in
   let last' := lastPage count size' in
   pageSize p' = Fin size' /\
   currentPage p' = (if last' <? cur then Fin (Z.max 0 last') else Fin cur) /\
   inPages 0 (Z.max 0 last') (currentPage p')).
Proof.
  intros Hs. cbv zeta.
  unfold goToPage, prevPage, nextPage, handleSetPageSize.
  cbn [currentPage pageSize].
  rewrite (maxPage_Fin count size) by lia.
  rewrite min_Fin, max_Fin.
  split; [reflexivity|]. split; [cbn; lia|]. split; [|split].
  - intros Hcur. change (Num.sub (Fin cur) (Fin 1)) with (Fin (cur - 1)).
    rewrite max_Fin. cbn. lia.
  - intros Hc. pose proof (lastPage_nonneg count size Hc Hs) as Hl.
    split; [exact Hl|]. intros Hcur.
    change (Num.add (Fin cur) (Fin 1)) with (Fin (cur + 1)).
    rewrite min_Fin. cbn. lia.
  - intros size' Hs' Hcur. rewrite (maxPage_Fin count size') by lia.
    unfold Num.gtb. cbn [Num.ltb].
    destruct (Z.ltb_spec (lastPage count size') cur);
      cbn [currentPage pageSize]; rewrite ?max_Fin;
      (split; [reflexivity|split; [reflexivity|cbn; lia]]).
Qed.

(** ** The reference host *)

Lemma string_compare_trans (a b c : string) :
  String.compare a b <> Gt -> String.compare b c <> Gt ->
  String.compare a c <> Gt.
Proof.
  revert b c. induction a as [|x a IH]; intros [|y b] [|z c];
    cbn [String.compare]; try congruence.
  unfold Ascii.compare.
  destruct (N.compare_spec (N_of_ascii x) (N_of_ascii y)) as [Hxy|Hxy|Hxy],
    (N.compare_spec (N_of_ascii y) (N_of_ascii z)) as [Hyz|Hyz|Hyz],
    (N.compare_spec (N_of_ascii x) (N_of_ascii z)) as [Hxz|Hxz|Hxz];
    try congruence; try lia.
  apply IH.
Qed.

Lemma refHost_order : LocaleOrder refHost.
Proof.
  split; cbn; unfold Ref.localeCompare.
  - intros a b. rewrite String.compare_antisym.
    now destruct (String.compare b a).
  - intros a b c Hab Hbc.
    pose proof (string_compare_trans a b c) as Ht.
    destruct (String.compare a b), (String.compare b c),
      (String.compare a c); try lia; exfalso; apply Ht; congruence.
Qed.

Lemma string_compare_lt_trans (a b c : string) :
  String.compare a b = Lt -> String.compare b c = Lt ->
  String.compare a c = Lt.
Proof.
  intros Hab Hbc.
  pose proof (string_compare_trans a b c) as Ht.
  destruct (String.compare a c) eqn:Hac.
  - apply String.compare_eq_iff in Hac. subst c.
    rewrite String.compare_antisym, Hab in Hbc. discriminate.
  - reflexivity.
  - exfalso. apply Ht; congruence.
Qed.

(** The collating host is one the sort by identifier is proved for. *)
Lemma collatingHost_order : LocaleOrder collatingHost.
Proof.
  split; cbn; unfold Collate.localeCompare.
  - intros a b.
    rewrite (String.compare_antisym (Ref.toLowerCase a) (Ref.toLowerCase b)).
    rewrite (String.compare_antisym a b).
    destruct (String.compare (Ref.toLowerCase b) (Ref.toLowerCase a)),
      (String.compare b a); reflexivity.
  - intros a b c.
    destruct (String.compare (Ref.toLowerCase a) (Ref.toLowerCase b)) eqn:Hab;
      destruct (String.compare (Ref.toLowerCase b) (Ref.toLowerCase c)) eqn:Hbc;
      try (intros; lia).
    + apply String.compare_eq_iff in Hab, Hbc. rewrite Hab, Hbc.
      assert (Hcc : String.compare (Ref.toLowerCase c) (Ref.toLowerCase c)
                    = Eq).
      { pose proof (String.compare_antisym (Ref.toLowerCase c)
                      (Ref.toLowerCase c)) as Hs.
        now destruct (String.compare (Ref.toLowerCase c)
                        (Ref.toLowerCase c)). }
      rewrite Hcc.
      pose proof (string_compare_trans c b a) as Ht.
      destruct (String.compare b a), (String.compare c b),
        (String.compare c a); intros; try lia; exfalso; apply Ht; congruence.
    + apply String.compare_eq_iff in Hab. rewrite Hab, Hbc. intros; lia.
    + apply String.compare_eq_iff in Hbc. rewrite <- Hbc, Hab. intros; lia.
    + rewrite (string_compare_lt_trans _ _ _ Hab Hbc). intros; lia.
Qed.

(** ** The engine on the reference host *)

Section Reference.
Local Existing Instance refHost.

(** The scenario of the specification. *)
Example scenario_amounts :
  let g0 := GridDataManager Sample.amounts "id" in
  let g1 := snd (sortBy "amount" asc g0) in
  let g2 := snd (addFilter
                   {| column := "amount"; value := VNum (Fin 6);
                      operator := OpGt |} g1) in
  let g3 := snd (updateCell "2" "amount" (VStr "100") g2) in
  let g4 := snd (sortBy "amount" asc g3) in
  displayIndex g1 = ["2"; "1"; "3"] /\
  filteredIndex g2 = ["1"; "3"] /\
  displayIndex g4 = ["1"; "3"; "2"] /\
  filteredIndex g4 = ["1"; "3"; "2"].
Proof. vm_compute. repeat split. Qed.

(** The deletion scenario of the specification. *)
Example scenario_delete :
  let g0 := GridDataManager Sample.amounts "id" in
  let r := deleteRow "2" g0 in
  displayIndex (snd r) = ["1"; "3"] /\
  filteredIndex (snd r) = ["1"; "3"] /\
  option_map totalRows (fst r) = Some 2%nat /\
  searchIndex (snd r) !! "2" = None /\
  (sortValues (snd r) !! "amount" ≫= (.!! "2")) = None.
Proof. vm_compute. repeat split. Qed.

(** Claim C1.  The filtered index is not the subsequence of the display
    index that passes the search text and the filters: a search after a
    filter keeps record 3, which the filter rejects, and a filter after a
    search keeps record 2, which the search rejects. *)
Theorem filteredIndex_misses_search_or_filters :
  let g0 := GridDataManager Sample.people "id" in
  let searchLast := [AddFilter Sample.amountAbove4; FilterBySearch "an"] in
  let filterLast := [FilterBySearch "an"; AddFilter Sample.amountAbove4] in
  (activeQuery "" searchLast = "an" /\
   filteredIndex (run searchLast g0) = ["1"; "3"] /\
   expectedFilteredIndex (run searchLast g0) "an" = ["1"]) /\
  (activeQuery "" filterLast = "an" /\
   filteredIndex (run filterLast g0) = ["1"; "2"] /\
   expectedFilteredIndex (run filterLast g0) "an" = ["1"]).
Proof. vm_compute. repeat split. Qed.

(** Claim C2.  [filterBySearch] with a non-empty text keeps every record
    whose search entry contains it, also record 3, which the active
    filter on the amount rejects. *)
Theorem filterBySearch_skips_filters :
  let g := snd (addFilter Sample.amountAbove4
                  (GridDataManager Sample.people "id")) in
  activeFilters g = [Sample.amountAbove4] /\
  passesAll g "3" = false /\
  filteredIndex (snd (filterBySearch "an" g)) = ["1"; "3"] /\
  expectedFilteredIndex (snd (filterBySearch "an" g)) "an" = ["1"].
Proof. vm_compute. repeat split. Qed.

(** Claim C3.  Built from two records with the same identifier, or from
    two records without the identifier field, the engine holds one row
    and lists its identifier twice in the display index. *)
Theorem constructor_duplicate_ids :
  let g := GridDataManager Sample.twins "id" in
  let g' := GridDataManager Sample.anonymous "id" in
  (displayIndex g = ["1"; "1"] /\ size (rowMap g) = 1%nat /\
   ~ List.NoDup (displayIndex g)) /\
  (displayIndex g' = ["undefined"; "undefined"] /\
   size (rowMap g') = 1%nat /\ ~ List.NoDup (displayIndex g')).
Proof.
  vm_compute. repeat split; intros Hnd; inversion Hnd as [|x l Hin _];
    apply Hin; now left.
Qed.

(** Claim C7.  On the date column, [updateCell] with a text that is no
    date succeeds and replaces the cached timestamp of the row by
    [NaN]. *)
Theorem updateCell_bad_date_overwrites_key :
  let g := GridDataManager Sample.dated "id" in
  let r := updateCell "1" "date" (VStr "not a date") g in
  dateGetTime (VStr "not a date") = NaN /\
  (sortValues g !! "date" ≫= (.!! "1")) = Some (Fin 1577836800000) /\
  fst r <> None /\
  (sortValues (snd r) !! "date" ≫= (.!! "1")) = Some NaN.
Proof. vm_compute. repeat split. discriminate. Qed.

(** Claim C6, as stated, fails: after a sort by amount, a sort by price
    leaves the two records, whose prices are equal, in the order of the
    amounts and not in the order of their insertion.  Both comparators
    are consistent, so that every host returns these arrays. *)
Lemma sortBy_ties_follow_display_order :
  let g0 := GridDataManager Sample.priced "id" in
  let g1 := snd (sortBy "amount" asc g0) in
  let g2 := snd (sortBy "price" asc g1) in
  displayIndex g0 = ["1"; "2"] /\
  consistentComparator (compareIds g0 "amount" asc) (displayIndex g0)
    = true /\
  consistentComparator (compareIds g1 "price" asc) (displayIndex g1)
    = true /\
  sameKey g1 "price" asc "1" "2" = true /\
  displayIndex g2 = ["2"; "1"].
Proof. vm_compute. repeat split. Qed.

(** A text that is no date is cached as [NaN] by the constructor, and the
    comparator on the date column is then not consistent: record 2 ties
    with records 1 and 3, which do not tie.  The order [sortBy] leaves
    is in that case the implementation's. *)
Example unparsable_date_inconsistent :
  let g := GridDataManager Sample2.undated "id" in
  (sortValues g !! "date" ≫= (.!! "2")) = Some NaN /\
  sameKey g "date" asc "1" "2" = true /\
  sameKey g "date" asc "2" "3" = true /\
  sameKey g "date" asc "1" "3" = false /\
  consistentComparator (compareIds g "date" asc) (displayIndex g) = false.
Proof. vm_compute. repeat split. Qed.

End Reference.

(** Claim C5, as stated, fails: where [localeCompare] collates, the
    identifiers "B" and "a", which are in lexicographic order, come out
    of [sortBy(column, 'none')] as "a", "B".  The comparator is
    consistent, so that every sort returns this array. *)
Lemma sortBy_none_follows_collation :
  let g := @GridDataManager collatingHost Sample2.mixedCase "id" in
  let g' := snd (@sortBy collatingHost "id" none g) in
  displayIndex g = ["B"; "a"] /\
  String.ltb "B" "a" = true /\
  consistentComparator (@compareIds collatingHost g "id" none)
    (displayIndex g) = true /\
  displayIndex g' = ["a"; "B"] /\
  StronglySorted
    (fun a b =>
       @localeCompare collatingHost (@idString collatingHost g' a)
         (@idString collatingHost g' b) <= 0)
    (displayIndex g') /\
  ~ StronglySorted
      (fun a b =>
         String.leb (@idString collatingHost g' a)
           (@idString collatingHost g' b) = true)
      (displayIndex g').
Proof.
  cbv zeta. repeat split; try (vm_compute; reflexivity).
  - change (displayIndex
              (snd (@sortBy collatingHost "id" none
                      (@GridDataManager collatingHost Sample2.mixedCase
                         "id"))))
      with ["a"; "B"].
    repeat constructor. vm_compute. discriminate.
  - intros Hs. apply StronglySorted_inv in Hs as [_ Hall].
    apply List.Forall_inv in Hall. vm_compute in Hall. discriminate Hall.
Qed.

(** Claim C9.  On an empty view [nextPage] leaves page 0 for page -1,
    where [goToPage], [setPageSize] and [prevPage] answer page 0. *)
Theorem nextPage_leaves_first_page :
  let p := {| currentPage := Fin 0; pageSize := Fin 10 |} in
  let far := {| currentPage := Fin 5; pageSize := Fin 10 |} in
  maxPage 0 (Fin 10) = Fin (-1) /\
  currentPage (goToPage 0 (Fin 1) p) = Fin 0 /\
  currentPage (handleSetPageSize 0 (Fin 10) far) = Fin 0 /\
  currentPage (prevPage p) = Fin 0 /\
  currentPage (nextPage 0 p) = Fin (-1) /\
  ~ inPages 0 (Z.max 0 (lastPage 0 10)) (currentPage (nextPage 0 p)).
Proof. vm_compute. repeat split. intros [H _]. now apply H. Qed.

(** ** Instances of the theorems on the sample stores *)

Lemma addRow_duplicate_witness :
  let g := @GridDataManager refHost Sample.amounts "id" in
  is_Some (rowMap g !! @rowIdOf refHost (idField g) Sample.again) /\
  @addRow refHost Sample.again g = (None, g).
Proof.
  split; [vm_compute; eauto|].
  apply (@addRow_duplicate refHost). vm_compute. eauto.
Defined.

Lemma sortBy_none_sorted_witness :
  let g := @run refHost [SortBy "amount" asc]
             (@GridDataManager refHost Sample.amounts "id") in
  let g' := snd (@sortBy refHost "amount" none g) in
  keysOK g /\
  displayIndex g = ["2"; "1"; "3"] /\
  displayIndex g' = ["1"; "2"; "3"] /\
  StronglySorted
    (fun a b =>
       @localeCompare refHost (@idString refHost g' a)
         (@idString refHost g' b) <= 0)
    (displayIndex g').
Proof.
  cbv zeta.
  split; [apply reachable_keysOK|].
  split; [vm_compute; reflexivity|]. split; [vm_compute; reflexivity|].
  exact (proj2 (@sortBy_none_sorted refHost refHost_order _ "amount"
                  (reachable_keysOK _ _ _))).
Defined.

Lemma sortBy_stable_witness :
  let g := @run refHost [SortBy "amount" asc]
             (@GridDataManager refHost Sample.priced "id") in
  keysOK g /\ asc <> none /\
  consistentComparator (@compareIds refHost g "price" asc) (displayIndex g)
    = true /\
  In "1" (displayIndex g) /\
  @sameKey refHost g "price" asc "1" "2" = true /\
  List.filter (@sameKey refHost g "price" asc "1")
    (displayIndex (snd (@sortBy refHost "price" asc g))) =
  List.filter (@sameKey refHost g "price" asc "1") (displayIndex g).
Proof.
  cbv zeta.
  assert (Hc : consistentComparator
                 (@compareIds refHost
                    (@run refHost [SortBy "amount" asc]
                       (@GridDataManager refHost Sample.priced "id"))
                    "price" asc)
                 (displayIndex
                    (@run refHost [SortBy "amount" asc]
                       (@GridDataManager refHost Sample.priced "id")))
               = true) by (vm_compute; reflexivity).
  assert (Hin : In "1"
                  (displayIndex
                     (@run refHost [SortBy "amount" asc]
                        (@GridDataManager refHost Sample.priced "id"))))
    by (vm_compute; auto).
  split; [apply reachable_keysOK|]. split; [discriminate|].
  split; [exact Hc|]. split; [exact Hin|].
  split; [vm_compute; reflexivity|].
  apply (@sortBy_stable refHost
           (@run refHost [SortBy "amount" asc]
              (@GridDataManager refHost Sample.priced "id"))
           "price" asc "1");
    [apply reachable_keysOK|discriminate|exact Hc|exact Hin].
Defined.

Lemma sortBy_cached_witness :
  let g := @GridDataManager refHost Sample.amounts "id" in
  let m : gmap RowId Num :=
    list_to_map [("1", Fin 10); ("2", Fin 5); ("3", Fin 20)] in
  let g' := snd (@sortBy refHost "amount" desc g) in
  sortValues g !! "amount" = Some m /\ desc <> none /\
  (forall id, In id (displayIndex g) -> cachedValue m id <> NaN) /\
  displayIndex g' = sortWith (cachedCompare m desc) (displayIndex g) /\
  displayIndex g' = ["3"; "1"; "2"] /\
  StronglySorted
    (fun a b => Num.ltb (cachedValue m a) (cachedValue m b) = false)
    (displayIndex g').
Proof.
  cbv zeta.
  assert (Hfin : forall id,
            In id (displayIndex
                     (@GridDataManager refHost Sample.amounts "id")) ->
            cachedValue
              (list_to_map [("1", Fin 10); ("2", Fin 5); ("3", Fin 20)])
              id <> NaN).
  { intros id Hid Hnan.
    assert (Hall : forallb
                     (fun id => negb (Num.isNaN
                        (cachedValue
                           (list_to_map
                              [("1", Fin 10); ("2", Fin 5); ("3", Fin 20)])
                           id)))
                     (displayIndex
                        (@GridDataManager refHost Sample.amounts "id"))
                   = true)
      by (vm_compute; reflexivity).
    rewrite forallb_forall in Hall. specialize (Hall id Hid).
    rewrite Hnan in Hall. discriminate Hall. }
  pose proof (@sortBy_cached refHost
                (@GridDataManager refHost Sample.amounts "id") "amount" desc
                (list_to_map [("1", Fin 10); ("2", Fin 5); ("3", Fin 20)]))
    as Hthm.
  destruct Hthm as (_ & _ & Hord);
    [vm_compute; reflexivity|discriminate|].
  destruct (Hord Hfin) as [Hsort Hsorted].
  split; [vm_compute; reflexivity|]. split; [discriminate|].
  split; [exact Hfin|].
  split; [exact Hsort|]. split; [vm_compute; reflexivity|].
  exact Hsorted.
Defined.

Lemma pages_in_range_witness :
  let p := {| currentPage := Fin 1; pageSize := Fin 10 |} in
  1 <= 10 /\ currentPage (goToPage 25 (Fin 7) p) = Fin 2.
Proof.
  cbv zeta. split; [lia|].
  exact (proj1 (pages_in_range 25 10 1 7 ltac:(lia))).
Defined.

Lemma updateCell_keeps_keys_witness :
  let g := @GridDataManager refHost Sample.amounts "id" in
  let row := Sample.record [("id", VStr "2"); ("amount", VNum (Fin 5))] in
  let g' := snd (@updateCell refHost "2" "id" (VStr "9") g) in
  rowMap g !! "2" = Some row /\
  dom (rowMap g') =@{gset RowId} dom (rowMap g) /\
  getRowById "2" g' = Some (<["id" := VStr "9"]> row).
Proof.
  cbv zeta.
  assert (Hrow : rowMap (@GridDataManager refHost Sample.amounts "id") !! "2"
                 = Some (Sample.record
                           [("id", VStr "2"); ("amount", VNum (Fin 5))]))
    by (vm_compute; reflexivity).
  split; [exact Hrow|].
  destruct (@updateCell_keeps_keys refHost "2" "id" (VStr "9") _ _ Hrow)
    as (Hdom & _ & Hget & _).
  split; [exact Hdom|exact Hget].
Defined.

(** * Further properties of the engine *)

(** ** Lists and maps *)

Lemma sublist_filter {A : Type} (p : A -> bool) (l : list A) :
  sublist (List.filter p l) l.
Proof.
  induction l as [|x l IH]; cbn [List.filter]; [constructor|].
  destruct (p x); now constructor.
Qed.

Lemma sublist_filter_mono {A : Type} (p : A -> bool) (k l : list A) :
  sublist k l -> sublist (List.filter p k) (List.filter p l).
Proof.
  induction 1 as [|x k l _ IH|x k l _ IH]; cbn [List.filter].
  - constructor.
  - destruct (p x); [now constructor|exact IH].
  - destruct (p x); [now constructor|exact IH].
Qed.

Lemma size_keys {A : Type} (m : gmap string A) (l : list string) :
  List.NoDup l -> (forall id, In id l <-> is_Some (m !! id)) ->
  size m = length l.
Proof.
  intros Hnd Hkeys. rewrite <- size_dom.
  assert (Hdom : dom m = list_to_set (C := gset string) l).
  { apply set_eq. intros id.
    rewrite elem_of_dom, elem_of_list_to_set, list_elem_of_In.
    symmetry. apply Hkeys. }
  rewrite Hdom. apply size_list_to_set. now apply NoDup_ListNoDup.
Qed.

Lemma StronglySorted_filter {A : Type} (R : A -> A -> Prop) (p : A -> bool)
    (l : list A) :
  StronglySorted R l -> StronglySorted R (List.filter p l).
Proof.
  induction 1 as [|x l Hs IH Hall]; cbn [List.filter]; [constructor|].
  destruct (p x); [|exact IH]. constructor; [exact IH|].
  apply List.Forall_forall. intros y Hy. apply filter_In in Hy as [Hy _].
  now apply (proj1 (List.Forall_forall _ _) Hall).
Qed.

Lemma filter_differs_absent (id : RowId) (l : list RowId) :
  ~ In id l -> List.filter (differs id) l = l.
Proof.
  induction l as [|x l IH]; [reflexivity|]. intros Hnin.
  cbn [List.filter].
  assert (Hx : differs id x = true).
  { apply differs_true. intros ->. apply Hnin. now left. }
  rewrite Hx, IH; [reflexivity|]. intros Hin. apply Hnin. now right.
Qed.

Section MoreEngineFacts.
Context {host : Host}.

(** ** The indices after any sequence of commands *)

Lemma exec_sublist (g : Engine) (c : Command) :
  sublist (filteredIndex g) (displayIndex g) ->
  sublist (filteredIndex (exec g c)) (displayIndex (exec g c)).
Proof.
  intros Hs. destruct c as [col dir|id col v|row|id|q|f|col|]; cbn [exec].
  - rewrite sortBy_filteredIndex. apply sublist_filter.
  - destruct (rowMap g !! id) as [row|] eqn:Hrow.
    + destruct (updateCell_effect id col v g row Hrow) as (_ & _ & _ & Hf).
      rewrite Hf. apply sublist_filter.
    + unfold updateCell. now rewrite Hrow.
  - destruct (rowMap g !! rowIdOf (idField g) row) as [old|] eqn:Hrow.
    + unfold addRow. unfold rowIdOf in Hrow. now rewrite Hrow.
    + destruct (addRow_effect row g Hrow) as (_ & _ & _ & Hf).
      rewrite Hf. apply sublist_filter.
  - destruct (rowMap g !! id) as [row|] eqn:Hrow.
    + destruct (deleteRow_effect id g (mk_is_Some _ _ Hrow))
        as (_ & _ & Hd & Hf).
      rewrite Hd, Hf. now apply sublist_filter_mono.
    + unfold deleteRow. now rewrite Hrow.
  - unfold filterBySearch. case_match; cbn [snd].
    + rewrite applyCurrentFilters_filteredIndex. apply sublist_filter.
    + apply sublist_filter.
  - unfold addFilter. cbn [snd].
    rewrite applyCurrentFilters_filteredIndex. apply sublist_filter.
  - unfold removeFilter. cbn [snd].
    rewrite applyCurrentFilters_filteredIndex. apply sublist_filter.
  - reflexivity.
Qed.

Lemma run_sublist (cs : list Command) (g : Engine) :
  sublist (filteredIndex g) (displayIndex g) ->
  sublist (filteredIndex (run cs g)) (displayIndex (run cs g)).
Proof.
  revert g. induction cs as [|c cs IH]; intros g Hg; [exact Hg|].
  apply IH. now apply exec_sublist.
Qed.

(** Property X1.  The filtered index is an order-preserving subsequence of the display
    index, the display index lists exactly the keys of the row store, and
    no row of a snapshot is [undefined]: after the constructor, whatever
    records it was given, and after every sequence of commands. *)
Theorem indices_after_commands (rows : list RowData) (idf : string)
    (cs : list Command) :
  let g := run cs (GridDataManager rows idf) in
  sublist (filteredIndex g) (displayIndex g) /\
  (forall id, In id (displayIndex g) <-> is_Some (rowMap g !! id)) /\
  List.Forall is_Some (filteredRows (getCurrentState g)).
Proof.
  cbv zeta.
  destruct (index_consistency rows idf cs) as ((Hsub & Hkeys) & _).
  split; [|split; [exact Hkeys|]].
  - apply run_sublist. reflexivity.
  - apply List.Forall_forall. intros r Hr. cbn in Hr.
    apply in_map_iff in Hr as (id & <- & Hid).
    apply Hkeys, Hsub, Hid.
Qed.

(** Property X2.  When the records given to the constructor have distinct identifiers,
    no index ever lists an identifier twice, [totalRows] is the length of
    the display index and [filteredCount] never exceeds [totalRows]. *)
Theorem counts_after_commands (rows : list RowData) (idf : string)
    (cs : list Command) :
  List.NoDup (map (rowIdOf idf) rows) ->
  let g := run cs (GridDataManager rows idf) in
  List.NoDup (displayIndex g) /\
  List.NoDup (filteredIndex g) /\
  totalRows (getCurrentState g) = length (displayIndex g) /\
  (filteredCount (getCurrentState g) <= totalRows (getCurrentState g))%nat.
Proof.
  intros Hnd. cbv zeta.
  destruct (index_consistency rows idf cs) as ((Hsub & Hkeys) & Hnodup).
  specialize (Hnodup Hnd).
  pose proof (run_sublist cs (GridDataManager rows idf)
                (reflexivity _)) as Hs.
  assert (Hsize : size (rowMap (run cs (GridDataManager rows idf))) =
                  length (displayIndex (run cs (GridDataManager rows idf))))
    by now apply size_keys.
  split; [exact Hnodup|]. split; [|split].
  - apply NoDup_ListNoDup. eapply sublist_NoDup; [|exact Hs].
    now apply NoDup_ListNoDup.
  - exact Hsize.
  - cbn [getCurrentState filteredCount totalRows]. rewrite Hsize.
    now apply sublist_length.
Qed.

(** ** The search index *)

Lemma field_insert_ne (row : RowData) (col c : string) (v : Value) :
  c <> col -> field (<[col := v]> row) c = field row c.
Proof. intros Hne. unfold field. now rewrite lookup_insert_ne. Qed.

Lemma inColumns_false (col c : string) (cols : list string) :
  inColumns col cols = false -> In c cols -> c <> col.
Proof.
  intros Hcol Hc ->. unfold inColumns in Hcol.
  assert (Ht : existsb (String.eqb col) cols = true).
  { apply existsb_exists. exists col. split; [exact Hc|apply String.eqb_refl]. }
  congruence.
Qed.

Lemma buildSearchString_insert (row : RowData) (col : string) (v : Value) :
  inColumns col SEARCHABLE_COLUMNS = false ->
  buildSearchString (<[col := v]> row) = buildSearchString row.
Proof.
  intros Hcol. unfold buildSearchString. f_equal.
  apply map_ext_in. intros c Hc.
  now rewrite (field_insert_ne _ _ _ _ (inColumns_false _ _ _ Hcol Hc)).
Qed.

(** What the sub-steps leave alone. *)
Lemma currentSort_eta (s : SortState) :
  {| sort_column := sort_column s; sort_direction := sort_direction s |} = s.
Proof. now destruct s. Qed.

Lemma resortOnEdit_caches (col : string) (g : Engine) :
  searchIndex (resortOnEdit col g) = searchIndex g /\
  sortValues (resortOnEdit col g) = sortValues g /\
  currentSort (resortOnEdit col g) = currentSort g /\
  idField (resortOnEdit col g) = idField g.
Proof.
  unfold resortOnEdit.
  destruct (sort_column (currentSort g)) as [c|] eqn:Hc; [|auto].
  destruct (_ && _); [|auto]. cbn. repeat split.
  rewrite <- Hc. apply currentSort_eta.
Qed.

Lemma resortOnAdd_caches (g : Engine) :
  searchIndex (resortOnAdd g) = searchIndex g /\
  sortValues (resortOnAdd g) = sortValues g /\
  currentSort (resortOnAdd g) = currentSort g /\
  idField (resortOnAdd g) = idField g.
Proof.
  unfold resortOnAdd.
  destruct (sort_column (currentSort g)) as [c|] eqn:Hc; [|auto].
  destruct (_ && _); [|auto]. cbn. repeat split.
  rewrite <- Hc. apply currentSort_eta.
Qed.

Lemma updateSortValue_searchIndex (id : RowId) (col : string) (v : Value)
    (g : Engine) :
  searchIndex (updateSortValue id col v g) = searchIndex g.
Proof. unfold updateSortValue. repeat case_match; reflexivity. Qed.

Lemma updateCell_searchIndex (id : RowId) (col : string) (v : Value)
    (g : Engine) (row : RowData) :
  rowMap g !! id = Some row ->
  searchIndex (snd (updateCell id col v g)) =
  if inColumns col SEARCHABLE_COLUMNS
  then <[id := buildSearchString (<[col := v]> row)]> (searchIndex g)
  else searchIndex g.
Proof.
  intros Hrow. unfold updateCell. rewrite Hrow. cbv zeta. cbn [snd].
  change (searchIndex (applyCurrentFilters false ?x)) with (searchIndex x).
  rewrite (proj1 (resortOnEdit_caches _ _)), updateSortValue_searchIndex.
  unfold updateSearchIndex. now destruct (inColumns col SEARCHABLE_COLUMNS).
Qed.

Lemma addRow_searchIndex (row : RowData) (g : Engine) :
  rowMap g !! rowIdOf (idField g) row = None ->
  searchIndex (snd (addRow row g)) =
  <[rowIdOf (idField g) row := buildSearchString row]> (searchIndex g).
Proof.
  unfold rowIdOf. intros Hrow. unfold addRow. rewrite Hrow.
  cbv zeta. cbn [snd].
  change (searchIndex (applyCurrentFilters false ?x)) with (searchIndex x).
  now rewrite (proj1 (resortOnAdd_caches _)).
Qed.

Lemma deleteRow_caches (id : RowId) (g : Engine) :
  is_Some (rowMap g !! id) ->
  searchIndex (snd (deleteRow id g)) = delete id (searchIndex g) /\
  sortValues (snd (deleteRow id g)) = delete id <$> sortValues g /\
  currentSort (snd (deleteRow id g)) = currentSort g /\
  activeFilters (snd (deleteRow id g)) = activeFilters g.
Proof.
  intros [row Hrow]. unfold deleteRow. rewrite Hrow. repeat split.
Qed.

Lemma exec_searchOK (g : Engine) (c : Command) :
  searchOK g -> searchOK (exec g c).
Proof.
  intros Hok. destruct c as [col dir|id col v|row|id|q|f|col|];
    cbn [exec]; try exact Hok.
  - destruct (rowMap g !! id) as [row|] eqn:Hrow.
    + destruct (updateCell_effect id col v g row Hrow) as (_ & Hr & _).
      intros k. rewrite Hr, (updateCell_searchIndex _ _ _ _ _ Hrow).
      destruct (decide (k = id)) as [->|Hne].
      * destruct (inColumns col SEARCHABLE_COLUMNS) eqn:Hcol.
        -- now rewrite !lookup_insert_eq.
        -- rewrite lookup_insert_eq, Hok, Hrow.
           cbn [fmap option_fmap option_map].
           now rewrite buildSearchString_insert.
      * rewrite lookup_insert_ne by congruence.
        destruct (inColumns col SEARCHABLE_COLUMNS);
          [rewrite lookup_insert_ne by congruence|]; apply Hok.
    + unfold updateCell. now rewrite Hrow.
  - destruct (rowMap g !! rowIdOf (idField g) row) as [old|] eqn:Hrow.
    + unfold addRow. unfold rowIdOf in Hrow. now rewrite Hrow.
    + destruct (addRow_effect row g Hrow) as (_ & Hr & _).
      intros k. rewrite Hr, (addRow_searchIndex _ _ Hrow).
      destruct (decide (k = rowIdOf (idField g) row)) as [->|Hne].
      * now rewrite !lookup_insert_eq.
      * rewrite !lookup_insert_ne by congruence. apply Hok.
  - destruct (rowMap g !! id) as [row|] eqn:Hrow.
    + destruct (deleteRow_effect id g (mk_is_Some _ _ Hrow))
        as (_ & Hr & _).
      destruct (deleteRow_caches id g (mk_is_Some _ _ Hrow)) as (Hs & _).
      intros k. rewrite Hr, Hs.
      destruct (decide (k = id)) as [->|Hne].
      * now rewrite !lookup_delete_eq.
      * rewrite !lookup_delete_ne by congruence. apply Hok.
    + unfold deleteRow. now rewrite Hrow.
  - unfold filterBySearch. now case_match.
Qed.

Lemma loadRows_searchOK (rows : list RowData) (g : Engine) :
  searchOK g -> searchOK (fold_left loadRow rows g).
Proof.
  revert g. induction rows as [|row rows IH]; intros g Hok; [exact Hok|].
  cbn [fold_left]. apply IH. intros k.
  change (<[toString (field row (idField g)) := buildSearchString row]>
            (searchIndex g) !! k =
          buildSearchString <$>
            (<[toString (field row (idField g)) := row]> (rowMap g) !! k)).
  destruct (decide (k = toString (field row (idField g)))) as [->|Hne].
  - now rewrite !lookup_insert_eq.
  - rewrite !lookup_insert_ne by congruence. apply Hok.
Qed.

Lemma reachable_searchOK (rows : list RowData) (idf : string)
    (cs : list Command) :
  searchOK (run cs (GridDataManager rows idf)).
Proof.
  assert (H0 : searchOK (GridDataManager rows idf)).
  { unfold GridDataManager. cbv zeta.
    apply (loadRows_searchOK rows (emptyEngine idf)).
    intros k'. cbn [emptyEngine searchIndex rowMap].
    now rewrite !lookup_empty. }
  revert H0. generalize (GridDataManager rows idf).
  induction cs as [|c cs IH]; intros g Hg; [exact Hg|].
  apply IH. now apply exec_searchOK.
Qed.

(** Property X3.  The search index always holds, for exactly the stored rows, the
    search string of the row as it is now; so a search finds the rows
    whose current searchable cells contain the text. *)
Theorem search_sees_current_rows (rows : list RowData) (idf : string)
    (cs : list Command) :
  let g := run cs (GridDataManager rows idf) in
  searchOK g /\
  forall query, query <> "" ->
    filteredIndex (snd (filterBySearch query g)) =
    List.filter
      (fun id => includes (buildSearchString (rowOf g id))
                   (toLowerCase query))
      (displayIndex g).
Proof.
  cbv zeta. pose proof (reachable_searchOK rows idf cs) as Hok.
  split; [exact Hok|]. intros query Hq.
  rewrite (filterBySearch_nonempty _ _ Hq).
  apply filter_ext_in. intros id Hid.
  destruct (reachable_keysOK rows idf cs id Hid) as [row Hrow].
  unfold matchesSearch, rowOf. rewrite Hok, Hrow. reflexivity.
Qed.

(** ** The entries of the sort cache *)

Lemma allEntries_weaken (P P' : string -> RowId -> Num -> Prop)
    (sv : gmap string (gmap RowId Num)) :
  (forall col id v, P col id v -> P' col id v) ->
  allEntries P sv -> allEntries P' sv.
Proof. intros Himp Hall col m id v Hm Hv. eapply Himp, Hall; eauto. Qed.

Lemma allEntries_ensure (P : string -> RowId -> Num -> Prop)
    (sv : gmap string (gmap RowId Num)) (colName : string) :
  allEntries P sv ->
  allEntries P match sv !! colName with
               | Some _ => sv
               | None => <[colName := ∅]> sv
               end.
Proof.
  intros Hall. destruct (sv !! colName) eqn:Hc; [exact Hall|].
  intros col m id v Hm Hv.
  destruct (decide (col = colName)) as [->|Hne].
  - rewrite lookup_insert_eq in Hm. injection Hm as <-.
    now rewrite lookup_empty in Hv.
  - rewrite lookup_insert_ne in Hm by congruence. eapply Hall; eauto.
Qed.

Lemma allEntries_set (P : string -> RowId -> Num -> Prop)
    (sv : gmap string (gmap RowId Num)) (colName : string) (id : RowId)
    (n : Num) :
  allEntries P sv -> P colName id n ->
  allEntries P (alter (insert id n) colName sv).
Proof.
  intros Hall Hn col m k v Hm Hv.
  destruct (decide (col = colName)) as [->|Hne].
  - rewrite lookup_alter_eq in Hm.
    destruct (sv !! colName) as [m0|] eqn:Hc; [|discriminate].
    cbn in Hm. injection Hm as <-.
    destruct (decide (k = id)) as [->|Hk].
    + rewrite lookup_insert_eq in Hv. now injection Hv as <-.
    + rewrite lookup_insert_ne in Hv by congruence. eapply Hall; eauto.
  - rewrite lookup_alter_ne in Hm by congruence. eapply Hall; eauto.
Qed.

Lemma allEntries_delete (P P' : string -> RowId -> Num -> Prop)
    (sv : gmap string (gmap RowId Num)) (id : RowId) :
  (forall col k v, k <> id -> P col k v -> P' col k v) ->
  allEntries P sv -> allEntries P' (delete id <$> sv).
Proof.
  intros Himp Hall col m k v Hm Hv.
  rewrite lookup_fmap in Hm.
  destruct (sv !! col) as [m0|] eqn:Hc; [|discriminate].
  cbn in Hm. injection Hm as <-.
  destruct (decide (k = id)) as [->|Hk].
  - now rewrite lookup_delete_eq in Hv.
  - rewrite lookup_delete_ne in Hv by congruence.
    apply Himp; [exact Hk|]. eapply Hall; eauto.
Qed.

Lemma precomputeDate_entries (P : string -> RowId -> Num -> Prop)
    (id : RowId) (row : RowData) (sv : gmap string (gmap RowId Num))
    (colName : string) :
  allEntries P sv ->
  (truthy (field row colName) = true ->
   P colName id (dateGetTime (field row colName))) ->
  allEntries P (precomputeDate id row sv colName).
Proof.
  intros Hall Hp. unfold precomputeDate.
  destruct (truthy (field row colName)).
  - apply allEntries_set; [now apply allEntries_ensure|now apply Hp].
  - now apply allEntries_ensure.
Qed.

Lemma precomputeNumeric_entries (P : string -> RowId -> Num -> Prop)
    (id : RowId) (row : RowData) (sv : gmap string (gmap RowId Num))
    (colName : string) :
  allEntries P sv ->
  (forall n, n <> NaN -> P colName id n) ->
  allEntries P (precomputeNumeric id row sv colName).
Proof.
  intros Hall Hp. unfold precomputeNumeric.
  pose proof (allEntries_ensure P sv colName Hall) as Hens.
  assert (Hset : forall n,
             allEntries P
               (if Num.isNaN n
                then match sv !! colName with
                     | Some _ => sv
                     | None => <[colName := ∅]> sv
                     end
                else alter (insert id n) colName
                       match sv !! colName with
                       | Some _ => sv
                       | None => <[colName := ∅]> sv
                       end)).
  { intros n. destruct n; cbn [Num.isNaN]; [exact Hens| | |];
      (apply allEntries_set; [exact Hens|apply Hp; discriminate]). }
  destruct (field row colName); try exact Hens; apply Hset.
Qed.

Lemma precomputeSortValues_entries (P : string -> RowId -> Num -> Prop)
    (id : RowId) (row : RowData) (g : Engine) :
  allEntries P (sortValues g) ->
  (forall colName, In colName DATE_COLUMNS ->
     truthy (field row colName) = true ->
     P colName id (dateGetTime (field row colName))) ->
  (forall colName n, In colName NUMERIC_COLUMNS -> n <> NaN ->
     P colName id n) ->
  allEntries P (sortValues (precomputeSortValues id row g)).
Proof.
  intros Hall Hdate Hnum. unfold precomputeSortValues.
  cbn [sortValues withSortValues].
  assert (Hd : forall cols sv,
             (forall c, In c cols -> In c DATE_COLUMNS) ->
             allEntries P sv ->
             allEntries P (fold_left (precomputeDate id row) cols sv)).
  { induction cols as [|c cols IH]; intros sv Hin Hsv; [exact Hsv|].
    cbn [fold_left]. apply IH; [intros c' Hc'; apply Hin; now right|].
    apply precomputeDate_entries; [exact Hsv|].
    apply Hdate, Hin. now left. }
  assert (Hn : forall cols sv,
             (forall c, In c cols -> In c NUMERIC_COLUMNS) ->
             allEntries P sv ->
             allEntries P (fold_left (precomputeNumeric id row) cols sv)).
  { induction cols as [|c cols IH]; intros sv Hin Hsv; [exact Hsv|].
    cbn [fold_left]. apply IH; [intros c' Hc'; apply Hin; now right|].
    apply precomputeNumeric_entries; [exact Hsv|].
    intros n. apply Hnum, Hin. now left. }
  apply Hn; [auto|]. apply Hd; auto.
Qed.

Lemma inColumns_In (col : string) (cols : list string) :
  inColumns col cols = true <-> In col cols.
Proof.
  unfold inColumns. rewrite existsb_exists. split.
  - intros (c & Hc & Heq). apply String.eqb_eq in Heq. now subst.
  - intros Hc. exists col. split; [exact Hc|apply String.eqb_refl].
Qed.

Lemma date_not_numeric (col : string) :
  In col DATE_COLUMNS -> inColumns col NUMERIC_COLUMNS = false.
Proof. intros [<-|[<-|[<-|[]]]]; reflexivity. Qed.

Lemma updateSortValue_entries (P : string -> RowId -> Num -> Prop)
    (id : RowId) (col : string) (v : Value) (g : Engine) :
  allEntries P (sortValues g) ->
  (In col DATE_COLUMNS -> truthy v = true -> P col id (dateGetTime v)) ->
  (forall n, In col NUMERIC_COLUMNS -> n <> NaN -> P col id n) ->
  allEntries P (sortValues (updateSortValue id col v g)).
Proof.
  intros Hall Hdate Hnum. unfold updateSortValue.
  destruct (sortValues g !! col); [|exact Hall].
  destruct (inColumns col DATE_COLUMNS && truthy v) eqn:Hd.
  - apply andb_true_iff in Hd as [Hc Hv]. apply inColumns_In in Hc.
    cbn [sortValues withSortValues]. apply allEntries_set; auto.
  - destruct (inColumns col NUMERIC_COLUMNS && _ && _) eqn:Hn;
      [|exact Hall].
    apply andb_true_iff in Hn as [Hn _].
    apply andb_true_iff in Hn as [Hc _]. apply inColumns_In in Hc.
    destruct (toNumber v) eqn:Hv; cbn [Num.isNaN]; [exact Hall| | |];
      cbn [sortValues withSortValues];
      (apply allEntries_set; [exact Hall|apply Hnum; [exact Hc|discriminate]]).
Qed.

Lemma updateCell_unfold (id : RowId) (col : string) (v : Value) (g : Engine)
    (row : RowData) :
  rowMap g !! id = Some row ->
  snd (updateCell id col v g) =
  applyCurrentFilters false
    (resortOnEdit col
       (updateSortValue id col v
          (updateSearchIndex id col (<[col := v]> row)
             (withRowMap g (<[id := <[col := v]> row]> (rowMap g)))))).
Proof. intros Hrow. unfold updateCell. now rewrite Hrow. Qed.

Lemma addRow_unfold (row : RowData) (g : Engine) :
  rowMap g !! rowIdOf (idField g) row = None ->
  snd (addRow row g) =
  applyCurrentFilters false
    (resortOnAdd
       (precomputeSortValues (rowIdOf (idField g) row) row
          (withSearchIndex
             (withDisplayIndex
                (withRowMap g (<[rowIdOf (idField g) row := row]> (rowMap g)))
                (displayIndex g ++ [rowIdOf (idField g) row]))
             (<[rowIdOf (idField g) row := buildSearchString row]>
                (searchIndex g))))).
Proof. unfold rowIdOf. intros Hrow. unfold addRow. now rewrite Hrow. Qed.

Lemma addRow_sortValues (row : RowData) (g : Engine) :
  rowMap g !! rowIdOf (idField g) row = None ->
  sortValues (snd (addRow row g)) =
  sortValues (precomputeSortValues (rowIdOf (idField g) row) row g).
Proof.
  intros Hrow. rewrite (addRow_unfold _ _ Hrow).
  change (sortValues (applyCurrentFilters false ?x)) with (sortValues x).
  now rewrite (proj1 (proj2 (resortOnAdd_caches _))).
Qed.

(** *** Numeric caches hold no [NaN] *)

Lemma exec_numericOK (g : Engine) (c : Command) :
  numericOK g -> numericOK (exec g c).
Proof.
  unfold numericOK. intros Hok.
  destruct c as [col dir|id col v|row|id|q|f|col|]; cbn [exec];
    try exact Hok.
  - destruct (rowMap g !! id) as [row|] eqn:Hrow.
    + rewrite (updateCell_sortValues _ _ _ _ _ Hrow).
      apply updateSortValue_entries; [exact Hok| |].
      * intros Hd _ Hn. rewrite (date_not_numeric _ Hd) in Hn. discriminate.
      * intros n _ Hn _. exact Hn.
    + unfold updateCell. now rewrite Hrow.
  - destruct (rowMap g !! rowIdOf (idField g) row) as [old|] eqn:Hrow.
    + unfold addRow. unfold rowIdOf in Hrow. now rewrite Hrow.
    + rewrite (addRow_sortValues _ _ Hrow).
      apply precomputeSortValues_entries; [exact Hok| |].
      * intros c Hd _ Hn. rewrite (date_not_numeric _ Hd) in Hn.
        discriminate.
      * intros c n _ Hn _. exact Hn.
  - destruct (rowMap g !! id) as [row|] eqn:Hrow.
    + destruct (deleteRow_caches id g (mk_is_Some _ _ Hrow)) as (_ & Hs & _).
      rewrite Hs. eapply allEntries_delete; [|exact Hok]. auto.
    + unfold deleteRow. now rewrite Hrow.
  - unfold filterBySearch. now case_match.
Qed.

Lemma loadRows_sortValues (P : string -> RowId -> Num -> Prop)
    (rows : list RowData) (g : Engine) :
  (forall row g', In row rows ->
     allEntries P (sortValues g') ->
     allEntries P (sortValues (loadRow g' row))) ->
  allEntries P (sortValues g) ->
  allEntries P (sortValues (fold_left loadRow rows g)).
Proof.
  revert g. induction rows as [|row rows IH]; intros g Hstep Hg; [exact Hg|].
  cbn [fold_left]. apply IH.
  - intros r g' Hr. apply Hstep. now right.
  - apply Hstep; [now left|exact Hg].
Qed.

Lemma GridDataManager_numericOK (rows : list RowData) (idf : string) :
  numericOK (GridDataManager rows idf).
Proof.
  unfold numericOK, GridDataManager. cbv zeta.
  cbn [sortValues withFilteredIndex].
  apply loadRows_sortValues.
  - intros row g' _ Hg'. unfold loadRow. cbv zeta.
    apply precomputeSortValues_entries; [exact Hg'| |].
    + intros c Hd _ Hn. rewrite (date_not_numeric _ Hd) in Hn.
      discriminate.
    + intros c n _ Hn _. exact Hn.
  - intros col m id v Hm. cbn in Hm. now rewrite lookup_empty in Hm.
Qed.

Lemma reachable_numericOK (rows : list RowData) (idf : string)
    (cs : list Command) :
  numericOK (run cs (GridDataManager rows idf)).
Proof.
  pose proof (GridDataManager_numericOK rows idf) as H0.
  revert H0. generalize (GridDataManager rows idf).
  induction cs as [|c cs IH]; intros g Hg; [exact Hg|].
  apply IH. now apply exec_numericOK.
Qed.

Lemma numericOK_cachedValue (g : Engine) (col : string)
    (m : gmap RowId Num) (id : RowId) :
  numericOK g -> inColumns col NUMERIC_COLUMNS = true ->
  sortValues g !! col = Some m -> cachedValue m id <> NaN.
Proof.
  intros Hok Hcol Hm. unfold cachedValue.
  destruct (m !! id) as [v|] eqn:Hv; [|discriminate].
  exact (Hok col m id v Hm Hv Hcol).
Qed.


(** *** The display index under an active numeric sort *)

Lemma notNone_true (dir : SortDirection) : notNone dir = true <-> dir <> none.
Proof. destruct dir; cbn; split; congruence. Qed.

Lemma sort_numeric_sorted (g : Engine) (col : string)
    (dir : SortDirection) (m : gmap RowId Num) (l : list RowId) :
  numericOK g -> inColumns col NUMERIC_COLUMNS = true ->
  sortValues g !! col = Some m -> notNone dir = true ->
  StronglySorted (inOrder m dir) (sort (compareIds g col dir) l).
Proof.
  intros Hok Hcol Hm Hdir. apply notNone_true in Hdir.
  assert (Hval : forall id, cachedValue m id <> NaN)
    by (intros id; eapply numericOK_cachedValue; eauto).
  eapply StronglySorted_weaken;
    [|apply sort_ascending;
      apply (compareIds_cached_consistent g col dir m); auto].
  intros a b _ _. cbv beta.
  rewrite (compareIds_cached g col dir m) by assumption.
  unfold cachedCompare, inOrder.
  destruct dir; [| |congruence]; now rewrite isPos_sub.
Qed.

Lemma sortBy_sortedOK (col : string) (dir : SortDirection) (g : Engine) :
  numericOK g -> sortedOK (snd (sortBy col dir g)).
Proof.
  intros Hok sc m Hsc Hdir Hnum Hm.
  cbn in Hsc. injection Hsc as <-.
  change (sort_direction (currentSort (snd (sortBy col dir g)))) with dir
    in *.
  rewrite sortBy_displayIndex.
  now apply sort_numeric_sorted.
Qed.

Lemma updateSortValue_other (id : RowId) (col c : string) (v : Value)
    (g : Engine) :
  c <> col ->
  sortValues (updateSortValue id col v g) !! c = sortValues g !! c.
Proof.
  intros Hne. unfold updateSortValue.
  repeat case_match; cbn [sortValues withSortValues];
    try reflexivity; now rewrite lookup_alter_ne by congruence.
Qed.

Lemma resortOnEdit_sortedOK (col : string) (g : Engine) :
  numericOK g ->
  (forall sc m,
     sort_column (currentSort g) = Some sc -> sc <> col ->
     notNone (sort_direction (currentSort g)) = true ->
     inColumns sc NUMERIC_COLUMNS = true ->
     sortValues g !! sc = Some m ->
     StronglySorted (inOrder m (sort_direction (currentSort g)))
       (displayIndex g)) ->
  sortedOK (resortOnEdit col g).
Proof.
  intros Hok Hother. unfold resortOnEdit.
  destruct (sort_column (currentSort g)) as [c|] eqn:Hc.
  - destruct (String.eqb_spec c col) as [->|Hne];
      [destruct (notNone (sort_direction (currentSort g))) eqn:Hdir|];
      cbn [andb].
    + now apply sortBy_sortedOK.
    + intros sc m _ Hd. congruence.
    + intros sc m Hsc. rewrite Hc in Hsc. injection Hsc as <-.
      now apply Hother.
  - intros sc m Hsc. congruence.
Qed.

Lemma numeric_nonempty (col : string) :
  inColumns col NUMERIC_COLUMNS = true -> String.eqb col "" = false.
Proof.
  intros Hcol. destruct (String.eqb_spec col ""); [|reflexivity].
  subst col. discriminate.
Qed.

Lemma resortOnAdd_sortedOK (g : Engine) :
  numericOK g -> sortedOK (resortOnAdd g).
Proof.
  intros Hok. unfold resortOnAdd.
  destruct (sort_column (currentSort g)) as [c|] eqn:Hc.
  - destruct (negb (String.eqb c "")
              && notNone (sort_direction (currentSort g))) eqn:Hcond.
    + now apply sortBy_sortedOK.
    + intros sc m Hsc Hdir Hnum. rewrite Hc in Hsc. injection Hsc as <-.
      rewrite (numeric_nonempty _ Hnum), Hdir in Hcond. discriminate.
  - intros sc m Hsc. congruence.
Qed.

Lemma cachedValue_delete (m : gmap RowId Num) (id k : RowId) :
  k <> id -> cachedValue (delete id m) k = cachedValue m k.
Proof.
  intros Hne. unfold cachedValue. now rewrite lookup_delete_ne by congruence.
Qed.

Lemma exec_sortedOK (g : Engine) (c : Command) :
  numericOK g -> sortedOK g -> sortedOK (exec g c).
Proof.
  intros Hok Hs.
  destruct c as [col dir|id col v|row|id|q|f|col|]; cbn [exec];
    try exact Hs.
  - now apply sortBy_sortedOK.
  - destruct (rowMap g !! id) as [row|] eqn:Hrow.
    + pose proof (exec_numericOK g (UpdateCell id col v) Hok) as Hok'.
      cbn [exec] in Hok'. unfold numericOK in Hok'.
      rewrite (updateCell_sortValues _ _ _ _ _ Hrow) in Hok'.
      rewrite (updateCell_unfold _ _ _ _ _ Hrow).
      set (g2 := updateSearchIndex id col _ _).
      assert (H2 : sortValues g2 = sortValues g /\
                   displayIndex g2 = displayIndex g /\
                   currentSort g2 = currentSort g).
      { unfold g2, updateSearchIndex. now case_match. }
      destruct H2 as (Hsv2 & Hd2 & Hc2).
      destruct (updateSortValue_frame id col v g2) as (_ & Hd3 & Hc3).
      assert (Hsv3 : sortValues (updateSortValue id col v g2) =
                     sortValues (updateSortValue id col v g)).
      { unfold updateSortValue. rewrite Hsv2.
        repeat case_match; cbn [sortValues withSortValues];
          congruence. }
      change (sortedOK (applyCurrentFilters false ?x)) with (sortedOK x).
      apply resortOnEdit_sortedOK.
      * unfold numericOK. now rewrite Hsv3.
      * rewrite Hc3, Hc2, Hd3, Hd2. intros sc m Hsc Hne Hdir Hnum Hm.
        rewrite (updateSortValue_other _ _ _ _ _ Hne), Hsv2 in Hm.
        now apply (Hs sc m).
    + unfold updateCell. now rewrite Hrow.
  - destruct (rowMap g !! rowIdOf (idField g) row) as [old|] eqn:Hrow.
    + unfold addRow. unfold rowIdOf in Hrow. now rewrite Hrow.
    + pose proof (exec_numericOK g (AddRow row) Hok) as Hok'.
      cbn [exec] in Hok'. unfold numericOK in Hok'.
      rewrite (addRow_sortValues _ _ Hrow) in Hok'.
      rewrite (addRow_unfold _ _ Hrow).
      change (sortedOK (applyCurrentFilters false ?x)) with (sortedOK x).
      apply resortOnAdd_sortedOK. exact Hok'.
  - destruct (rowMap g !! id) as [row|] eqn:Hrow.
    + destruct (deleteRow_effect id g (mk_is_Some _ _ Hrow))
        as (_ & _ & Hd & _).
      destruct (deleteRow_caches id g (mk_is_Some _ _ Hrow))
        as (_ & Hsv & Hc & _).
      intros sc m'. rewrite Hc, Hd, Hsv, lookup_fmap.
      intros Hsc Hdir Hnum Hm'.
      destruct (sortValues g !! sc) as [m|] eqn:Hm; [|discriminate].
      cbn in Hm'. injection Hm' as <-.
      apply (StronglySorted_weaken
               (inOrder m (sort_direction (currentSort g)))).
      * intros a b Ha Hb. apply filter_In in Ha as [_ Ha].
        apply filter_In in Hb as [_ Hb].
        apply differs_true in Ha, Hb. unfold inOrder.
        now rewrite !cachedValue_delete.
      * apply StronglySorted_filter. now apply (Hs sc m).
    + unfold deleteRow. now rewrite Hrow.
  - unfold filterBySearch. now case_match.
Qed.

Lemma loadRows_currentSort (rows : list RowData) (g : Engine) :
  currentSort (fold_left loadRow rows g) = currentSort g.
Proof.
  revert g. induction rows as [|row rows IH]; intros g; [reflexivity|].
  cbn [fold_left]. now rewrite IH.
Qed.

Lemma reachable_sortedOK (rows : list RowData) (idf : string)
    (cs : list Command) :
  sortedOK (run cs (GridDataManager rows idf)).
Proof.
  assert (H0 : sortedOK (GridDataManager rows idf)).
  { intros sc m Hsc. unfold GridDataManager in Hsc. cbv zeta in Hsc.
    cbn [currentSort withFilteredIndex] in Hsc.
    rewrite loadRows_currentSort in Hsc. discriminate. }
  pose proof (GridDataManager_numericOK rows idf) as H1.
  revert H0 H1. generalize (GridDataManager rows idf).
  induction cs as [|c cs IH]; intros g Hg Hn; [exact Hg|].
  apply IH; [now apply exec_sortedOK|now apply exec_numericOK].
Qed.

(** Property X5.  The cache of a numeric column never holds [NaN]: neither the
    constructor nor any command stores a value that is no number. *)
Theorem numeric_cache_never_NaN (rows : list RowData) (idf : string)
    (cs : list Command) (col : string) (m : gmap RowId Num) (id : RowId) :
  inColumns col NUMERIC_COLUMNS = true ->
  sortValues (run cs (GridDataManager rows idf)) !! col = Some m ->
  m !! id <> Some NaN.
Proof.
  intros Hcol Hm Hv.
  exact (reachable_numericOK rows idf cs col m id NaN Hm Hv Hcol eq_refl).
Qed.

(** Property X6.  While a numeric column is the sort column, with [asc] or [desc], the
    display index stays in the order of the column's cached values
    through edits, insertions, deletions, searches and filters. *)
Theorem display_stays_sorted (rows : list RowData) (idf : string)
    (cs : list Command) (col : string) (dir : SortDirection)
    (m : gmap RowId Num) :
  let g := run cs (GridDataManager rows idf) in
  currentSort g = {| sort_column := Some col; sort_direction := dir |} ->
  dir <> none ->
  inColumns col NUMERIC_COLUMNS = true ->
  sortValues g !! col = Some m ->
  StronglySorted (inOrder m dir) (displayIndex g).
Proof.
  cbv zeta. intros Hsort Hdir Hcol Hm.
  pose proof (reachable_sortedOK rows idf cs col m) as Hs.
  rewrite Hsort in Hs. cbn [sort_column sort_direction] in Hs.
  apply Hs; auto. now apply notNone_true.
Qed.

(** *** Cache entries belong to stored rows *)

Lemma exec_cacheKeysOK (g : Engine) (c : Command) :
  cacheKeysOK g -> cacheKeysOK (exec g c).
Proof.
  unfold cacheKeysOK. intros Hok.
  destruct c as [col dir|id col v|row|id|q|f|col|]; cbn [exec];
    try exact Hok.
  - destruct (rowMap g !! id) as [row|] eqn:Hrow.
    + destruct (updateCell_effect id col v g row Hrow) as (_ & Hr & _).
      rewrite Hr, (updateCell_sortValues _ _ _ _ _ Hrow).
      apply updateSortValue_entries.
      * eapply allEntries_weaken; [|exact Hok].
        intros c0 k v0 Hk. apply lookup_insert_is_Some'. now right.
      * intros Hd Ht. now rewrite lookup_insert_eq.
      * intros n Hc Hn. now rewrite lookup_insert_eq.
    + unfold updateCell. now rewrite Hrow.
  - destruct (rowMap g !! rowIdOf (idField g) row) as [old|] eqn:Hrow.
    + unfold addRow. unfold rowIdOf in Hrow. now rewrite Hrow.
    + destruct (addRow_effect row g Hrow) as (_ & Hr & _).
      rewrite Hr, (addRow_sortValues _ _ Hrow).
      apply precomputeSortValues_entries.
      * eapply allEntries_weaken; [|exact Hok].
        intros c0 k v0 Hk. apply lookup_insert_is_Some'. now right.
      * intros c0 Hd Ht. now rewrite lookup_insert_eq.
      * intros c0 n Hc Hn. now rewrite lookup_insert_eq.
  - destruct (rowMap g !! id) as [row|] eqn:Hrow.
    + destruct (deleteRow_effect id g (mk_is_Some _ _ Hrow))
        as (_ & Hr & _).
      destruct (deleteRow_caches id g (mk_is_Some _ _ Hrow)) as (_ & Hs & _).
      rewrite Hr, Hs. eapply allEntries_delete; [|exact Hok].
      intros c0 k v0 Hne Hk. apply lookup_delete_is_Some. split; [congruence|exact Hk].
    + unfold deleteRow. now rewrite Hrow.
  - unfold filterBySearch. now case_match.
Qed.

Lemma loadRows_cacheKeysOK (rows : list RowData) (g : Engine) :
  cacheKeysOK g -> cacheKeysOK (fold_left loadRow rows g).
Proof.
  revert g. induction rows as [|row rows IH]; intros g Hok; [exact Hok|].
  cbn [fold_left]. apply IH. unfold cacheKeysOK, loadRow. cbv zeta.
  change (rowMap (precomputeSortValues ?i ?r ?x)) with (rowMap x).
  cbn [rowMap withSearchIndex withDisplayIndex withRowMap].
  apply precomputeSortValues_entries.
  - eapply allEntries_weaken; [|exact Hok].
    intros c0 k v0 Hk. apply lookup_insert_is_Some'. now right.
  - intros c0 Hd Ht. now rewrite lookup_insert_eq.
  - intros c0 n Hc Hn. now rewrite lookup_insert_eq.
Qed.

Lemma reachable_cacheKeysOK (rows : list RowData) (idf : string)
    (cs : list Command) :
  cacheKeysOK (run cs (GridDataManager rows idf)).
Proof.
  assert (H0 : cacheKeysOK (GridDataManager rows idf)).
  { unfold GridDataManager. cbv zeta.
    apply (loadRows_cacheKeysOK rows (emptyEngine idf)).
    intros col m id v Hm. cbn in Hm. now rewrite lookup_empty in Hm. }
  revert H0. generalize (GridDataManager rows idf).
  induction cs as [|c cs IH]; intros g Hg; [exact Hg|].
  apply IH. now apply exec_cacheKeysOK.
Qed.

(** Property X4.  No cache keeps an entry for an identifier without a row: the search
    index has entries for exactly the stored rows, and every entry of
    every sort cache map belongs to a stored row. *)
Theorem caches_follow_rows (rows : list RowData) (idf : string)
    (cs : list Command) (id : RowId) :
  let g := run cs (GridDataManager rows idf) in
  (is_Some (searchIndex g !! id) <-> is_Some (rowMap g !! id)) /\
  (forall col m,
     sortValues g !! col = Some m -> is_Some (m !! id) ->
     is_Some (rowMap g !! id)).
Proof.
  cbv zeta. split.
  - rewrite (reachable_searchOK rows idf cs id).
    now rewrite fmap_is_Some.
  - intros col m Hm [v Hv].
    exact (reachable_cacheKeysOK rows idf cs col m id v Hm Hv).
Qed.

(** *** Active filters *)

Lemma otherColumn_true (col : string) (f : FilterConfig) :
  otherColumn col f = true <-> column f <> col.
Proof.
  unfold otherColumn. rewrite Bool.negb_true_iff.
  destruct (String.eqb_spec (column f) col); split; congruence.
Qed.

Lemma NoDup_map_filter {A B : Type} (h : A -> B) (p : A -> bool)
    (l : list A) :
  List.NoDup (map h l) -> List.NoDup (map h (List.filter p l)).
Proof.
  induction l as [|x l IH]; cbn [map List.filter]; [auto|].
  intros Hnd. inversion Hnd as [|? ? Hx Hl]; subst.
  destruct (p x); [|now apply IH]. cbn [map]. constructor; [|now apply IH].
  intros Hin. apply Hx. apply in_map_iff in Hin as (y & Hy & Hin).
  apply filter_In in Hin as [Hin _]. apply in_map_iff. eauto.
Qed.

Lemma frames_activeFilters (g : Engine) (c : Command) :
  match c with
  | AddFilter _ | RemoveFilter _ | ClearFilters => True
  | _ => activeFilters (exec g c) = activeFilters g
  end.
Proof.
  destruct c as [col dir|id col v|row|id|q|f|col|]; cbn [exec]; auto.
  - destruct (rowMap g !! id) as [row|] eqn:Hrow.
    + rewrite (updateCell_unfold _ _ _ _ _ Hrow).
      change (activeFilters (applyCurrentFilters false ?x))
        with (activeFilters x).
      destruct (resortOnEdit_frame col
                  (updateSortValue id col v
                     (updateSearchIndex id col (<[col:=v]> row)
                        (withRowMap g (<[id:=<[col:=v]> row]> (rowMap g))))))
        as ((_ & -> & _) & _).
      destruct (updateSortValue_frame id col v
                  (updateSearchIndex id col (<[col:=v]> row)
                     (withRowMap g (<[id:=<[col:=v]> row]> (rowMap g)))))
        as ((_ & -> & _) & _).
      unfold updateSearchIndex. now case_match.
    + unfold updateCell. now rewrite Hrow.
  - destruct (rowMap g !! rowIdOf (idField g) row) as [old|] eqn:Hrow.
    + unfold addRow. unfold rowIdOf in Hrow. now rewrite Hrow.
    + rewrite (addRow_unfold _ _ Hrow).
      change (activeFilters (applyCurrentFilters false ?x))
        with (activeFilters x).
      now destruct (resortOnAdd_frame
                      (precomputeSortValues (rowIdOf (idField g) row) row
                         (withSearchIndex
                            (withDisplayIndex
                               (withRowMap g
                                  (<[rowIdOf (idField g) row := row]>
                                     (rowMap g)))
                               (displayIndex g ++ [rowIdOf (idField g) row]))
                            (<[rowIdOf (idField g) row :=
                                 buildSearchString row]> (searchIndex g)))))
        as ((_ & -> & _) & _).
  - destruct (rowMap g !! id) as [row|] eqn:Hrow.
    + now destruct (deleteRow_caches id g (mk_is_Some _ _ Hrow))
        as (_ & _ & _ & ->).
    + unfold deleteRow. now rewrite Hrow.
  - unfold filterBySearch. now case_match.
Qed.

Lemma exec_oneFilterPerColumn (g : Engine) (c : Command) :
  oneFilterPerColumn g -> oneFilterPerColumn (exec g c).
Proof.
  unfold oneFilterPerColumn. intros Hok.
  pose proof (frames_activeFilters g c) as Hfr.
  destruct c as [col dir|id col v|row|id|q|f|col|];
    try (rewrite Hfr; exact Hok); cbn [exec].
  - unfold addFilter. cbn [snd].
    change (activeFilters (applyCurrentFilters false ?x))
      with (activeFilters x).
    cbn [activeFilters withActiveFilters].
    rewrite map_app. cbn [map].
    apply (Permutation_NoDup (Permutation_cons_append _ _)).
    constructor; [|now apply NoDup_map_filter].
    intros Hin. apply in_map_iff in Hin as (f' & Hcol & Hin).
    apply filter_In in Hin as [_ Hin]. apply otherColumn_true in Hin.
    contradiction.
  - unfold removeFilter. cbn [snd].
    change (activeFilters (applyCurrentFilters false ?x))
      with (activeFilters x).
    cbn [activeFilters withActiveFilters]. now apply NoDup_map_filter.
  - cbn. constructor.
Qed.

Lemma loadRows_activeFilters (rows : list RowData) (g : Engine) :
  activeFilters (fold_left loadRow rows g) = activeFilters g.
Proof.
  revert g. induction rows as [|row rows IH]; intros g; [reflexivity|].
  cbn [fold_left]. now rewrite IH.
Qed.

(** Property X7.  At most one filter per column is ever active, and after
    [addFilter(f)] the filter on the column of [f] is [f]. *)
Theorem one_filter_per_column (rows : list RowData) (idf : string)
    (cs : list Command) (f : FilterConfig) :
  let g := run cs (GridDataManager rows idf) in
  List.NoDup (map column (activeFilters g)) /\
  (forall f', In f' (activeFilters (snd (addFilter f g))) ->
     column f' = column f -> f' = f) /\
  In f (activeFilters (snd (addFilter f g))).
Proof.
  cbv zeta.
  assert (Hnd : oneFilterPerColumn (run cs (GridDataManager rows idf))).
  { assert (H0 : oneFilterPerColumn (GridDataManager rows idf)).
    { unfold oneFilterPerColumn, GridDataManager. cbv zeta.
      cbn [activeFilters withFilteredIndex].
      rewrite loadRows_activeFilters. constructor. }
    revert H0. generalize (GridDataManager rows idf).
    induction cs as [|c cs IH]; intros g Hg; [exact Hg|].
    apply IH. now apply exec_oneFilterPerColumn. }
  split; [exact Hnd|].
  unfold addFilter. cbn [snd].
  change (activeFilters (applyCurrentFilters false ?x))
    with (activeFilters x).
  cbn [activeFilters withActiveFilters]. split.
  - intros f' Hin Hcol. apply in_app_iff in Hin as [Hin|[<-|[]]];
      [|reflexivity].
    apply filter_In in Hin as [_ Hin]. apply otherColumn_true in Hin.
    contradiction.
  - apply in_app_iff. right. now left.
Qed.

(** *** Deleting, inserting, unknown identifiers *)

Lemma resortOnAdd_none (g : Engine) :
  sort_direction (currentSort g) = none -> resortOnAdd g = g.
Proof.
  intros Hnone. unfold resortOnAdd. rewrite Hnone. cbn [notNone].
  destruct (sort_column (currentSort g)); [|reflexivity].
  now rewrite Bool.andb_false_r.
Qed.

Lemma addRow_appends (row : RowData) (g : Engine) :
  rowMap g !! rowIdOf (idField g) row = None ->
  sort_direction (currentSort g) = none ->
  displayIndex (snd (addRow row g)) =
  (displayIndex g ++ [rowIdOf (idField g) row])%list.
Proof.
  intros Hrow Hnone. rewrite (addRow_unfold _ _ Hrow).
  change (displayIndex (applyCurrentFilters false ?x))
    with (displayIndex x).
  rewrite resortOnAdd_none; [reflexivity|exact Hnone].
Qed.

(** Property X8.  [deleteRow] on a stored identifier removes it from the row store,
    from both indices (the others keep their order), from the search
    index and from every map of the sort cache, leaves the other rows as
    they were, and the snapshot counts one row less. *)
Theorem deleteRow_removes (id : RowId) (g : Engine) :
  is_Some (rowMap g !! id) ->
  let g' := snd (deleteRow id g) in
  option_map totalRows (fst (deleteRow id g)) =
    Some (Nat.pred (size (rowMap g))) /\
  rowMap g' !! id = None /\
  (forall k, k <> id -> rowMap g' !! k = rowMap g !! k) /\
  displayIndex g' = List.filter (differs id) (displayIndex g) /\
  filteredIndex g' = List.filter (differs id) (filteredIndex g) /\
  ~ In id (displayIndex g') /\ ~ In id (filteredIndex g') /\
  searchIndex g' !! id = None /\
  (forall col m, sortValues g' !! col = Some m -> m !! id = None).
Proof.
  intros Hsome. cbv zeta.
  destruct (deleteRow_effect id g Hsome) as (Hfst & Hr & Hd & Hf).
  destruct (deleteRow_caches id g Hsome) as (Hs & Hsv & _).
  destruct Hsome as [row Hrow].
  rewrite Hfst, Hr, Hd, Hf, Hs, Hsv. repeat split.
  - cbn [option_map getCurrentState totalRows]. f_equal. rewrite Hr.
    apply map_size_delete_Some. now rewrite Hrow.
  - apply lookup_delete_eq.
  - intros k Hk. now apply lookup_delete_ne.
  - intros Hin. apply filter_In in Hin as [_ Hin].
    now apply differs_true in Hin.
  - intros Hin. apply filter_In in Hin as [_ Hin].
    now apply differs_true in Hin.
  - apply lookup_delete_eq.
  - intros col m Hm. rewrite lookup_fmap in Hm.
    destruct (sortValues g !! col) as [m0|]; [|discriminate].
    cbn in Hm. injection Hm as <-. apply lookup_delete_eq.
Qed.

(** Property X9.  [updateCell] and [deleteRow] on an identifier that is not stored
    return [null] and change nothing. *)
Theorem unknown_id_changes_nothing (id : RowId) (col : string) (v : Value)
    (g : Engine) :
  rowMap g !! id = None ->
  updateCell id col v g = (None, g) /\ deleteRow id g = (None, g) /\
  hasRow id g = false /\ getRowsByIds [id] g = [].
Proof.
  intros Hrow. unfold updateCell, deleteRow, hasRow, getRowsByIds.
  rewrite Hrow. split; [reflexivity|]. split; [reflexivity|]. split.
  - apply bool_decide_eq_false. intros [x Hx]. discriminate.
  - cbn. now rewrite Hrow.
Qed.

(** Property X10.  [addRow] on a record with a new identifier stores the record under
    the stringified identifier, leaves the other rows as they were and
    lists the identifier once more in the display index: at its end
    when no sort is active. *)
Theorem addRow_inserts (row : RowData) (g : Engine) :
  rowMap g !! rowIdOf (idField g) row = None ->
  let id := rowIdOf (idField g) row in
  let g' := snd (addRow row g) in
  option_map totalRows (fst (addRow row g)) = Some (S (size (rowMap g))) /\
  getRowById id g' = Some row /\ hasRow id g' = true /\
  (forall k, k <> id -> rowMap g' !! k = rowMap g !! k) /\
  Permutation (displayIndex g') (displayIndex g ++ [id]) /\
  (sort_direction (currentSort g) = none ->
   displayIndex g' = (displayIndex g ++ [id])%list) /\
  searchIndex g' !! id = Some (buildSearchString row).
Proof.
  intros Hrow. cbv zeta.
  destruct (addRow_effect row g Hrow) as (Hfst & Hr & Hd & _).
  unfold getRowById, hasRow. rewrite Hfst, Hr.
  rewrite (addRow_searchIndex _ _ Hrow). repeat split.
  - cbn [option_map getCurrentState totalRows]. f_equal. rewrite Hr.
    now apply map_size_insert_None.
  - apply lookup_insert_eq.
  - apply bool_decide_eq_true. rewrite lookup_insert_eq. eauto.
  - intros k Hk. now apply lookup_insert_ne.
  - exact Hd.
  - intros Hnone. now apply addRow_appends.
  - apply lookup_insert_eq.
Qed.

(** Property X11.  Round trip: on a state the engine reaches, with no sort active,
    inserting a record with a new identifier and deleting it again gives
    back the row store, the display index and the search index. *)
Theorem addRow_deleteRow_round_trip (rows : list RowData) (idf : string)
    (cs : list Command) (row : RowData) :
  let g := run cs (GridDataManager rows idf) in
  let id := rowIdOf (idField g) row in
  rowMap g !! id = None ->
  sort_direction (currentSort g) = none ->
  let g' := snd (deleteRow id (snd (addRow row g))) in
  rowMap g' = rowMap g /\ displayIndex g' = displayIndex g /\
  searchIndex g' = searchIndex g.
Proof.
  cbv zeta. intros Hrow Hnone.
  set (g := run cs (GridDataManager rows idf)) in *.
  destruct (addRow_effect row g Hrow) as (_ & Hr & _).
  assert (Hsome : is_Some (rowMap (snd (addRow row g))
                             !! rowIdOf (idField g) row))
    by (rewrite Hr, lookup_insert_eq; eauto).
  destruct (deleteRow_effect _ _ Hsome) as (_ & Hr' & Hd' & _).
  destruct (deleteRow_caches _ _ Hsome) as (Hs' & _).
  rewrite Hr', Hd', Hs', Hr, (addRow_searchIndex _ _ Hrow).
  rewrite (addRow_appends _ _ Hrow Hnone). repeat split.
  - now apply delete_insert_id.
  - rewrite List.filter_app. cbn [List.filter].
    assert (Hself : differs (rowIdOf (idField g) row)
                      (rowIdOf (idField g) row) = false).
    { unfold differs. now rewrite String.eqb_refl. }
    rewrite Hself, app_nil_r. apply filter_differs_absent.
    intros Hin. apply (reachable_keysOK rows idf cs) in Hin.
    fold g in Hin. rewrite Hrow in Hin. now destruct Hin.
  - apply delete_insert_id.
    pose proof (reachable_searchOK rows idf cs
                  (rowIdOf (idField g) row)) as Hs.
    fold g in Hs. now rewrite Hs, Hrow.
Qed.

(** *** How filters, searches and sorts compose *)

Lemma addFilter_state (f : FilterConfig) (g : Engine) :
  snd (addFilter f g) =
  applyCurrentFilters false
    (withActiveFilters g
       (List.filter (otherColumn (column f)) (activeFilters g) ++ [f])).
Proof. reflexivity. Qed.

Lemma removeFilter_state (col : string) (g : Engine) :
  snd (removeFilter col g) =
  applyCurrentFilters false
    (withActiveFilters g (List.filter (otherColumn col) (activeFilters g))).
Proof. reflexivity. Qed.

Lemma refilter_again (g : Engine) (fs fs' : list FilterConfig) :
  applyCurrentFilters false
    (withActiveFilters
       (applyCurrentFilters false (withActiveFilters g fs)) fs') =
  applyCurrentFilters false (withActiveFilters g fs').
Proof. reflexivity. Qed.

Lemma filter_same_column (f : FilterConfig) (fs : list FilterConfig)
    (col : string) :
  column f = col ->
  List.filter (otherColumn col)
    (List.filter (otherColumn (column f)) fs ++ [f]) =
  List.filter (otherColumn col) fs.
Proof.
  intros <-. rewrite List.filter_app, filter_twice. cbn [List.filter].
  assert (Hf : otherColumn (column f) f = false).
  { unfold otherColumn. now rewrite String.eqb_refl. }
  rewrite Hf, app_nil_r. apply filter_ext. intros x.
  now destruct (otherColumn (column f) x).
Qed.

(** Property X12.  A filter added for a column replaces the one added before for the
    same column, and removing the filter of a column undoes adding it:
    the engine ends in the state it would be in without the first
    call. *)
Theorem addFilter_replaces (f1 f2 : FilterConfig) (g : Engine) :
  column f1 = column f2 ->
  snd (addFilter f2 (snd (addFilter f1 g))) = snd (addFilter f2 g) /\
  snd (removeFilter (column f1) (snd (addFilter f1 g))) =
  snd (removeFilter (column f1) g).
Proof.
  intros Hcol. rewrite !addFilter_state, !removeFilter_state.
  change (activeFilters (applyCurrentFilters false ?x))
    with (activeFilters x).
  cbn [activeFilters withActiveFilters]. rewrite !refilter_again.
  rewrite (filter_same_column f1 _ (column f2) Hcol).
  now rewrite (filter_same_column f1 _ (column f1) eq_refl).
Qed.

Lemma filter_other_columns (f : FilterConfig) (fs : list FilterConfig)
    (col : string) :
  column f <> col ->
  List.filter (otherColumn col)
    (List.filter (otherColumn (column f)) fs ++ [f]) =
  (List.filter (fun x => otherColumn (column f) x && otherColumn col x) fs
     ++ [f])%list.
Proof.
  intros Hne. rewrite List.filter_app, filter_twice. cbn [List.filter].
  now rewrite (proj2 (otherColumn_true col f) Hne).
Qed.

(** Property X13.  Filters on two different columns are conjunctive and can be added in
    either order: the filtered index is the same, and it holds the
    records of the display index that pass both filters and every older
    filter on another column. *)
Theorem addFilter_commutes (f1 f2 : FilterConfig) (g : Engine) :
  column f1 <> column f2 ->
  let g12 := snd (addFilter f2 (snd (addFilter f1 g))) in
  let g21 := snd (addFilter f1 (snd (addFilter f2 g))) in
  filteredIndex g12 = filteredIndex g21 /\
  Permutation (activeFilters g12) (activeFilters g21) /\
  forall id,
    In id (filteredIndex g12) <->
    In id (displayIndex g) /\
    passes g f1 id = true /\ passes g f2 id = true /\
    forall f, In f (activeFilters g) ->
      column f <> column f1 -> column f <> column f2 ->
      passes g f id = true.
Proof.
  intros Hne. cbv zeta. rewrite !addFilter_state.
  change (activeFilters (applyCurrentFilters false ?x))
    with (activeFilters x).
  cbn [activeFilters withActiveFilters]. rewrite !refilter_again.
  rewrite (filter_other_columns f1 _ _ Hne).
  rewrite (filter_other_columns f2 _ _ (not_eq_sym Hne)).
  rewrite !applyCurrentFilters_filteredIndex.
  change (activeFilters (applyCurrentFilters false ?x))
    with (activeFilters x).
  cbn [activeFilters withActiveFilters displayIndex].
  set (both := fun x => otherColumn (column f1) x && otherColumn (column f2) x).
  assert (Hswap : List.filter
                    (fun x => otherColumn (column f2) x
                              && otherColumn (column f1) x)
                    (activeFilters g) =
                  List.filter both (activeFilters g)).
  { apply filter_ext. intros x. apply Bool.andb_comm. }
  rewrite Hswap.
  assert (Hpass : forall (fs : list FilterConfig) (id : RowId),
            passesAll (withActiveFilters g fs) id =
            forallb (fun f => passes g f id) fs) by reflexivity.
  split; [|split].
  - apply filter_ext. intros id. rewrite !Hpass.
    rewrite <- !List.app_assoc, !forallb_app. cbn [forallb app].
    rewrite !Bool.andb_true_r.
    now destruct (passes g f1 id), (passes g f2 id);
      rewrite ?Bool.andb_true_r, ?Bool.andb_false_r.
  - unfold applyCurrentFilters.
    cbn [activeFilters withActiveFilters withFilteredIndex].
    rewrite (filter_other_columns f1 _ _ Hne).
    rewrite (filter_other_columns f2 _ _ (not_eq_sym Hne)), Hswap.
    rewrite <- !List.app_assoc. apply Permutation_app_head. apply perm_swap.
  - intros id. rewrite filter_In, Hpass.
    rewrite <- List.app_assoc, !forallb_app. cbn [forallb app].
    rewrite !Bool.andb_true_r, !Bool.andb_true_iff, forallb_forall.
    split.
    + intros (Hd & Hold & H1 & H2). repeat split; auto.
      intros f Hf Hn1 Hn2. apply Hold. apply filter_In. split; [exact Hf|].
      unfold both. now rewrite !(proj2 (otherColumn_true _ _)).
    + intros (Hd & H1 & H2 & Hold). repeat split; auto.
      intros f Hf. apply filter_In in Hf as [Hf Hb].
      unfold both in Hb. apply Bool.andb_true_iff in Hb as [Hb1 Hb2].
      apply otherColumn_true in Hb1, Hb2. now apply Hold.
Qed.

(** Property X14.  A search replaces the search before it instead of narrowing it, and
    the empty search leaves the records that pass the column filters. *)
Theorem search_last_wins (q1 q2 : string) (g : Engine) :
  snd (filterBySearch q2 (snd (filterBySearch q1 g))) =
  snd (filterBySearch q2 g) /\
  filteredIndex (snd (filterBySearch "" (snd (filterBySearch q1 g)))) =
  List.filter (passesAll g) (displayIndex g).
Proof.
  split.
  - unfold filterBySearch.
    now destruct (String.eqb q1 ""), (String.eqb q2 "").
  - unfold filterBySearch. cbn [String.eqb snd].
    rewrite applyCurrentFilters_filteredIndex.
    now destruct (String.eqb q1 "").
Qed.

Lemma sortBy_state (col : string) (dir : SortDirection) (g : Engine) :
  snd (sortBy col dir g) =
  applyCurrentFilters false
    (withDisplayIndex
       (withCurrentSort g {| sort_column := Some col; sort_direction := dir |})
       (sort (compareIds g col dir) (displayIndex g))).
Proof. reflexivity. Qed.

Lemma sortBy_fixed (col : string) (dir : SortDirection) (g : Engine) :
  sort (compareIds g col dir)
    (sort (compareIds g col dir) (displayIndex g)) =
  sort (compareIds g col dir) (displayIndex g) ->
  snd (sortBy col dir (snd (sortBy col dir g))) = snd (sortBy col dir g).
Proof.
  intros Hfix. rewrite (sortBy_state col dir (snd (sortBy col dir g))).
  rewrite sortBy_displayIndex.
  change (compareIds (snd (sortBy col dir g)) col dir)
    with (compareIds g col dir).
  rewrite Hfix. reflexivity.
Qed.

(** Property X15.  Sorting twice is sorting once: a second [sortBy] with the same
    column and direction leaves the whole state as it is, for the
    direction [none] and for a numeric column with a cache. *)
Theorem sortBy_idempotent `{!LocaleOrder host} (rows : list RowData)
    (idf : string) (cs : list Command) (col : string)
    (dir : SortDirection) :
  let g := run cs (GridDataManager rows idf) in
  dir = none \/
  (inColumns col NUMERIC_COLUMNS = true /\ is_Some (sortValues g !! col)) ->
  snd (sortBy col dir (snd (sortBy col dir g))) = snd (sortBy col dir g).
Proof.
  cbv zeta. intros Hcase. apply sortBy_fixed. apply sort_idempotent.
  destruct dir;
    [| |apply compareIds_none_consistent];
    (destruct Hcase as [Hd|(Hcol & m & Hm)]; [discriminate Hd|]);
    (apply (compareIds_cached_consistent _ col _ m);
     [exact Hm|discriminate|]);
    intros id _; eapply numericOK_cachedValue;
    eauto using reachable_numericOK.
Qed.

End MoreEngineFacts.

(** ** Pages of the filtered rows *)

Lemma slice_page {A : Type} (l : list A) (k s : nat) :
  slice l (Fin (Z.of_nat (k * s)))
    (Num.add (Fin (Z.of_nat (k * s))) (Fin (Z.of_nat s))) =
  firstn s (skipn (k * s) l).
Proof.
  unfold slice. cbn [Num.add sliceIndex].
  destruct (Z.ltb_spec (Z.of_nat (k * s)) 0) as [Hneg|_]; [lia|].
  destruct (Z.ltb_spec (Z.of_nat (k * s) + Z.of_nat s) 0) as [Hneg|_];
    [lia|].
  destruct (Nat.le_gt_cases (k * s) (length l)) as [Hle|Hgt].
  - replace (Z.to_nat (Z.min (Z.of_nat (k * s)) (Z.of_nat (length l))))
      with (k * s)%nat by lia.
    destruct (Nat.le_gt_cases (k * s + s) (length l)) as [Hle'|Hgt'].
    + replace (Z.to_nat (Z.min (Z.of_nat (k * s) + Z.of_nat s)
                           (Z.of_nat (length l))) - k * s)%nat
        with s by lia.
      reflexivity.
    + replace (Z.to_nat (Z.min (Z.of_nat (k * s) + Z.of_nat s)
                           (Z.of_nat (length l))) - k * s)%nat
        with (length l - k * s)%nat by lia.
      rewrite !firstn_all2; [reflexivity| |];
        rewrite length_skipn; lia.
  - replace (Z.to_nat (Z.min (Z.of_nat (k * s)) (Z.of_nat (length l))))
      with (length l) by lia.
    rewrite !skipn_all2 by lia. now rewrite !firstn_nil.
Qed.

Lemma concat_pages {A : Type} (s n : nat) (l : list A) :
  (length l <= n * s)%nat ->
  concat (map (fun k => firstn s (skipn (k * s) l)) (seq 0 n)) = l.
Proof.
  revert l. induction n as [|n IH]; intros l Hlen.
  - cbn in *. destruct l; [reflexivity|cbn in Hlen; lia].
  - cbn [seq map concat]. rewrite <- seq_shift, map_map.
    cbn [Nat.mul skipn].
    rewrite (map_ext _ (fun k => firstn s (skipn (k * s) (skipn s l)))).
    + rewrite IH; [apply firstn_skipn|]. rewrite length_skipn.
      cbn [Nat.mul] in Hlen. lia.
    + intros k. rewrite skipn_skipn. do 2 f_equal. cbn [Nat.mul]. lia.
Qed.

Lemma pages_cover (count s : nat) :
  (1 <= s)%nat ->
  (count <= Z.to_nat (lastPage count (Z.of_nat s) + 1) * s)%nat.
Proof.
  intros Hs. unfold lastPage.
  assert (Hpos : 0 < Z.of_nat s) by lia.
  pose proof (Z.mul_div_le (- Z.of_nat count) (Z.of_nat s) Hpos) as Hdiv.
  assert (Hq : (- Z.of_nat count) / Z.of_nat s <= 0)
    by (apply Z.div_le_upper_bound; lia).
  nia.
Qed.

Lemma omap_length_le {A B : Type} (f : A -> option B) (l : list A) :
  (length (omap f l) <= length l)%nat.
Proof.
  induction l as [|x l IH]; [reflexivity|].
  cbn [omap list_omap]. destruct (f x); cbn [length]; lia.
Qed.

Lemma omap_concat {A B : Type} (f : A -> option B) (ls : list (list A)) :
  omap f (concat ls) = concat (map (omap f) ls).
Proof.
  induction ls as [|l ls IH]; [reflexivity|].
  cbn [concat map]. now rewrite omap_app, IH.
Qed.

(** Property X16.  [getVisibleRows(page * size, size)] cuts the filtered rows into
    pages: no page has more than [size] rows, the pages from 0 to the
    last one, put end to end, are all the filtered rows in their order,
    and a page past the last one is empty. *)
Theorem getVisibleRows_pages (g : Engine) (s : nat) :
  (1 <= s)%nat ->
  let page := fun k : nat =>
    getVisibleRows (Fin (Z.of_nat (k * s))) (Fin (Z.of_nat s)) g in
  let last := lastPage (length (filteredIndex g)) (Z.of_nat s) in
  (forall k, (length (page k) <= s)%nat) /\
  concat (map page (seq 0 (Z.to_nat (last + 1)))) =
    getRowsByIds (getFilteredIds g) g /\
  (forall k, last < Z.of_nat k -> page k = []).
Proof.
  intros Hs. cbv zeta. unfold getVisibleRows, getRowsByIds, getFilteredIds.
  split; [|split].
  - intros k. rewrite slice_page.
    etransitivity; [apply omap_length_le|].
    rewrite length_firstn. lia.
  - rewrite (map_ext _ (fun k => omap (fun id => rowMap g !! id)
                                  (firstn s (skipn (k * s)
                                               (filteredIndex g)))))
      by (intros k; now rewrite slice_page).
    rewrite <- (map_map (fun k => firstn s (skipn (k * s) (filteredIndex g)))
                  (omap (fun id => rowMap g !! id))).
    rewrite <- omap_concat. f_equal.
    apply concat_pages. now apply pages_cover.
  - intros k Hk. rewrite slice_page.
    pose proof (pages_cover (length (filteredIndex g)) s Hs) as Hcov.
    rewrite skipn_all2; [now rewrite firstn_nil|]. nia.
Qed.

(** Property X17.  Bounds outside the filtered rows give no row and no error: a start
    at or past the end, a page size that is [NaN], and the page before
    the first one, whose start is minus the page size. *)
Theorem getVisibleRows_edges (g : Engine) (size : nat) (start : Z) :
  (Z.of_nat (length (filteredIndex g)) <= start ->
   getVisibleRows (Fin start) (Fin (Z.of_nat size)) g = []) /\
  getVisibleRows (Fin start) NaN g = [] /\
  getVisibleRows (Fin (- Z.of_nat size)) (Fin (Z.of_nat size)) g = [].
Proof.
  unfold getVisibleRows, slice. split; [|split].
  - intros Hstart. cbn [Num.add sliceIndex].
    destruct (Z.ltb_spec start 0); [lia|].
    destruct (Z.ltb_spec (start + Z.of_nat size) 0); [lia|].
    rewrite skipn_all2 by lia. now rewrite firstn_nil.
  - cbn [Num.add sliceIndex Nat.sub]. reflexivity.
  - cbn [Num.add sliceIndex].
    replace (- Z.of_nat size + Z.of_nat size) with 0 by lia.
    cbn [Z.ltb Z.compare]. 
    replace (Z.to_nat (Z.min 0 (Z.of_nat (length (filteredIndex g)))))
      with 0%nat by lia.
    reflexivity.
Qed.

(** ** The hook *)

Lemma includesId_In (id : RowId) (ids : list RowId) :
  Hook.includesId id ids = true <-> In id ids.
Proof.
  unfold Hook.includesId. rewrite existsb_exists. split.
  - intros (x & Hx & Heq). apply String.eqb_eq in Heq. now subst.
  - intros Hin. exists id. split; [exact Hin|apply String.eqb_refl].
Qed.

Lemma includesId_false (id : RowId) (ids : list RowId) :
  Hook.includesId id ids = false <-> ~ In id ids.
Proof.
  rewrite <- includesId_In. now destruct (Hook.includesId id ids).
Qed.

Lemma includesId_iff (x : RowId) (k l : list RowId) (b : bool) :
  (In x k <-> (if b then ~ In x l else In x l)) ->
  Hook.includesId x k = if b then negb (Hook.includesId x l)
                        else Hook.includesId x l.
Proof.
  intros Hiff. apply Bool.eq_true_iff_eq. rewrite includesId_In, Hiff.
  destruct b; [|now rewrite includesId_In].
  now rewrite Bool.negb_true_iff, includesId_false.
Qed.

(** Property X18.  [toggleSelection(id)] flips whether [id] is selected and nothing
    else, never selects an identifier twice, and called twice on an
    identifier that was not selected gives back the selection. *)
Theorem toggleSelection_flips (id : RowId) (prev : list RowId) :
  (forall x,
     Hook.includesId x (Hook.toggleSelection id prev) =
     if String.eqb x id then negb (Hook.includesId id prev)
     else Hook.includesId x prev) /\
  (List.NoDup prev -> List.NoDup (Hook.toggleSelection id prev)) /\
  (Hook.includesId id prev = false ->
   Hook.toggleSelection id (Hook.toggleSelection id prev) = prev).
Proof.
  unfold Hook.toggleSelection. split; [|split].
  - intros x. destruct (String.eqb_spec x id) as [->|Hne].
    + apply (includesId_iff id _ prev true).
      destruct (Hook.includesId id prev) eqn:Hin.
      * rewrite filter_In, differs_true.
        apply includesId_In in Hin. tauto.
      * apply includesId_false in Hin. rewrite in_app_iff. cbn [In]. tauto.
    + apply (includesId_iff x _ prev false).
      destruct (Hook.includesId id prev).
      * rewrite filter_In, differs_true. tauto.
      * rewrite in_app_iff. cbn [In]. split; [|tauto].
        intros [Hx|[Hx|[]]]; [exact Hx|congruence].
  - intros Hnd. destruct (Hook.includesId id prev) eqn:Hin.
    + now apply List.NoDup_filter.
    + apply (Permutation_NoDup (Permutation_cons_append _ _)).
      constructor; [now apply includesId_false|exact Hnd].
  - intros Hin. rewrite Hin.
    assert (Hnow : Hook.includesId id (prev ++ [id]) = true).
    { apply includesId_In, in_app_iff. right. now left. }
    rewrite Hnow, List.filter_app. cbn [List.filter].
    assert (Hself : differs id id = false).
    { unfold differs. now rewrite String.eqb_refl. }
    rewrite Hself, app_nil_r. apply filter_differs_absent.
    now apply includesId_false.
Qed.

Section HookFacts.
Context {host : Host}.

(** Property X19.  [toggleSelectAll()] decides by the counts alone: a selection with as
    many identifiers as there are filtered rows, whichever they are, is
    cleared; any other selection is replaced by the identifier fields of
    the filtered rows, after which all count as selected, when there is
    a row, and the next call clears. *)
Theorem toggleSelectAll_by_count (idField : string) (s : Hook.State) :
  let all := map (Hook.snapshotId idField)
               (filteredRows (Hook.gridState s)) in
  (length (Hook.selectedIds s) = length all ->
   Hook.toggleSelectAll idField s = []) /\
  (length (Hook.selectedIds s) <> length all ->
   Hook.toggleSelectAll idField s = all /\
   Hook.toggleSelectAll idField (selecting all s) = [] /\
   Hook.isAllSelected (selecting all s) = negb (length all =? 0)%nat).
Proof.
  cbv zeta. unfold Hook.toggleSelectAll, Hook.isAllSelected.
  rewrite length_map. split.
  - intros Hlen. now rewrite (proj2 (Nat.eqb_eq _ _) Hlen).
  - intros Hlen. rewrite (proj2 (Nat.eqb_neq _ _) Hlen).
    cbn [selecting Hook.selectedIds Hook.gridState].
    rewrite length_map, Nat.eqb_refl. repeat split.
    rewrite Bool.andb_true_r.
    now destruct (length (filteredRows (Hook.gridState s))).
Qed.

Lemma handleSort_step (columns : list string) (columnIndex : Z)
    (column : string) (s : Hook.State) :
  Hook.columnAt columns columnIndex = Some column ->
  exists s',
    Hook.handleSort columns columnIndex s = Some s' /\
    Hook.sortField s' = Some column /\
    Hook.sortDirection s' = Hook.newDirection s column /\
    currentSort (Hook.dataManager s') =
      {| sort_column := Some column;
         sort_direction := Hook.dmDirection (Hook.newDirection s column) |} /\
    currentPage (Hook.pager s') = Fin 0 /\
    pageSize (Hook.pager s') = pageSize (Hook.pager s) /\
    Hook.selectedIds s' = Hook.selectedIds s.
Proof.
  intros Hcol. unfold Hook.handleSort. rewrite Hcol.
  eexists. split; [reflexivity|]. repeat split.
Qed.

Lemma newDirection_next (column : string) (s : Hook.State) :
  Hook.sortField s = Some column ->
  Hook.newDirection s column =
  match Hook.sortDirection s with
  | Hook.dNone => Hook.dAsc
  | Hook.dAsc => Hook.dDsc
  | Hook.dDsc => Hook.dNone
  end.
Proof.
  intros Hf. unfold Hook.newDirection. now rewrite Hf, String.eqb_refl.
Qed.

(** Property X20.  Three clicks on the header of a column that is not being sorted take
    the column through ascending and descending back to no sort; the
    engine is sorted accordingly, each click goes back to the first page
    and none touches the selection. *)
Theorem handleSort_cycles (columns : list string) (columnIndex : Z)
    (column : string) (s : Hook.State) :
  Hook.columnAt columns columnIndex = Some column ->
  Hook.sortField s <> Some column \/ Hook.sortDirection s = Hook.dNone ->
  exists s1 s2 s3,
    Hook.handleSort columns columnIndex s = Some s1 /\
    Hook.handleSort columns columnIndex s1 = Some s2 /\
    Hook.handleSort columns columnIndex s2 = Some s3 /\
    Hook.sortDirection s1 = Hook.dAsc /\
    currentSort (Hook.dataManager s1) =
      {| sort_column := Some column; sort_direction := asc |} /\
    Hook.sortDirection s2 = Hook.dDsc /\
    currentSort (Hook.dataManager s2) =
      {| sort_column := Some column; sort_direction := desc |} /\
    Hook.sortDirection s3 = Hook.dNone /\
    currentSort (Hook.dataManager s3) =
      {| sort_column := Some column; sort_direction := none |} /\
    Hook.sortField s3 = Some column /\
    currentPage (Hook.pager s3) = Fin 0 /\
    pageSize (Hook.pager s3) = pageSize (Hook.pager s) /\
    Hook.selectedIds s3 = Hook.selectedIds s.
Proof.
  intros Hcol Hfresh.
  assert (Hdir : Hook.newDirection s column = Hook.dAsc).
  { unfold Hook.newDirection. destruct (Hook.sortField s) as [f|];
      [|reflexivity].
    destruct (String.eqb_spec f column) as [->|Hne]; [|reflexivity].
    destruct Hfresh as [Hf| ->]; [congruence|reflexivity]. }
  destruct (handleSort_step columns columnIndex column s Hcol)
    as (s1 & H1 & Hf1 & Hd1 & Hc1 & _ & Hp1 & Hsel1).
  destruct (handleSort_step columns columnIndex column s1 Hcol)
    as (s2 & H2 & Hf2 & Hd2 & Hc2 & _ & Hp2 & Hsel2).
  destruct (handleSort_step columns columnIndex column s2 Hcol)
    as (s3 & H3 & Hf3 & Hd3 & Hc3 & Hpage & Hp3 & Hsel3).
  rewrite Hdir in Hd1, Hc1.
  rewrite (newDirection_next _ _ Hf1), Hd1 in Hd2, Hc2.
  rewrite (newDirection_next _ _ Hf2), Hd2 in Hd3, Hc3.
  exists s1, s2, s3. repeat split; auto; congruence.
Qed.

Lemma option_result (r : option Snapshot * Engine) (g : Engine) :
  (fst r = Some (getCurrentState (snd r)) \/ r = (None, g)) ->
  forall s, Hook.dataManager s = g -> synced s ->
  forall sel, synced (Hook.withResult s r sel).
Proof.
  intros [Hr| ->] s Hg Hs sel; unfold synced, Hook.withResult;
    cbn [Hook.gridState Hook.dataManager fst snd].
  - now rewrite Hr.
  - now rewrite <- Hg.
Qed.

Lemma updateCell_result (id : RowId) (col : string) (v : Value)
    (g : Engine) :
  fst (updateCell id col v g) =
    Some (getCurrentState (snd (updateCell id col v g))) \/
  updateCell id col v g = (None, g).
Proof. unfold updateCell. destruct (rowMap g !! id); auto. Qed.

Lemma addRow_result (row : RowData) (g : Engine) :
  fst (addRow row g) = Some (getCurrentState (snd (addRow row g))) \/
  addRow row g = (None, g).
Proof.
  unfold addRow. destruct (rowMap g !! toString (field row (idField g)));
    auto.
Qed.

Lemma deleteRow_result (id : RowId) (g : Engine) :
  fst (deleteRow id g) = Some (getCurrentState (snd (deleteRow id g))) \/
  deleteRow id g = (None, g).
Proof. unfold deleteRow. destruct (rowMap g !! id); auto. Qed.

Lemma filterBySearch_result (q : string) (g : Engine) :
  fst (filterBySearch q g) = getCurrentState (snd (filterBySearch q g)).
Proof. unfold filterBySearch. now case_match. Qed.

(** Property X21.  Every callback leaves the hook's snapshot equal to the current state
    of its engine, also when the engine answers [null]. *)
Theorem callbacks_keep_snapshot (s : Hook.State) :
  synced s ->
  (forall columns columnIndex s',
     Hook.handleSort columns columnIndex s = Some s' -> synced s') /\
  (forall col v operator, synced (Hook.addFilter col v operator s)) /\
  (forall col, synced (Hook.removeFilter col s)) /\
  synced (Hook.clearFilters s) /\
  (forall query, synced (Hook.setSearchQuery query s)) /\
  (forall rowId columnName v,
     synced (Hook.updateCell rowId columnName v s)) /\
  (forall rowData, synced (Hook.addRow rowData s)) /\
  (forall rowId, synced (Hook.deleteRow rowId s)).
Proof.
  intros Hs.
  split; [|split; [|split; [|split; [|split; [|split; [|split]]]]]].
  - intros columns columnIndex s'. unfold Hook.handleSort.
    destruct (Hook.columnAt columns columnIndex); [|discriminate].
    now intros [= <-].
  - reflexivity.
  - reflexivity.
  - unfold Hook.clearFilters.
    destruct (String.eqb (Hook.searchQuery s) ""); [reflexivity|].
    unfold synced, Hook.searchEffect.
    cbn [Hook.gridState Hook.dataManager Hook.searchQuery].
    apply filterBySearch_result.
  - intros query. unfold Hook.setSearchQuery.
    destruct (String.eqb query (Hook.searchQuery s)); [exact Hs|].
    unfold synced, Hook.searchEffect.
    cbn [Hook.gridState Hook.dataManager Hook.searchQuery].
    apply filterBySearch_result.
  - intros rowId columnName v. unfold Hook.updateCell.
    destruct (String.eqb columnName ""); [exact Hs|].
    eapply option_result; [apply updateCell_result|reflexivity|exact Hs].
  - intros rowData. unfold Hook.addRow.
    eapply option_result; [apply addRow_result|reflexivity|exact Hs].
  - intros rowId. unfold Hook.deleteRow. cbv zeta.
    eapply option_result; [apply deleteRow_result|reflexivity|exact Hs].
Qed.

(** Property X22.  The hook's [deleteRow]: when the engine has the row, the identifier
    leaves the selection, the other selected identifiers stay, and the
    snapshot is the engine's new state; when it has not, engine, snapshot
    and selection stay as they are. *)
Theorem Hook_deleteRow_selection (rowId : RowId) (s : Hook.State) :
  let s' := Hook.deleteRow rowId s in
  (is_Some (rowMap (Hook.dataManager s) !! rowId) ->
   Hook.isSelected rowId s' = false /\
   (forall x, x <> rowId -> Hook.isSelected x s' = Hook.isSelected x s) /\
   hasRow rowId (Hook.dataManager s') = false /\
   Hook.gridState s' = getCurrentState (Hook.dataManager s')) /\
  (rowMap (Hook.dataManager s) !! rowId = None ->
   Hook.dataManager s' = Hook.dataManager s /\
   Hook.gridState s' = Hook.gridState s /\
   Hook.selectedIds s' = Hook.selectedIds s).
Proof.
  cbv zeta. unfold Hook.deleteRow, Hook.withResult, Hook.isSelected.
  cbn [Hook.selectedIds Hook.dataManager Hook.gridState]. split.
  - intros Hsome.
    destruct (deleteRow_effect rowId _ Hsome) as (Hfst & Hr & _).
    rewrite Hfst. repeat split.
    + destruct (Hook.includesId rowId (Hook.selectedIds s)) eqn:Hin;
        [|exact Hin].
      apply includesId_false. intros Hx. apply filter_In in Hx as [_ Hx].
      now apply differs_true in Hx.
    + intros x Hne.
      destruct (Hook.includesId rowId (Hook.selectedIds s)); [|reflexivity].
      apply (includesId_iff x _ (Hook.selectedIds s) false).
      rewrite filter_In, differs_true. tauto.
    + unfold hasRow. rewrite Hr, lookup_delete_eq.
      apply bool_decide_eq_false. intros [x Hx]. discriminate.
  - intros Hnone. unfold deleteRow. rewrite Hnone. repeat split.
Qed.

End HookFacts.

(** ** Instances of the further properties on the sample stores *)

Section MoreInstances.
Local Existing Instance refHost.

Lemma amounts_ids_distinct :
  List.NoDup (map (rowIdOf "id") Sample.amounts).
Proof.
  vm_compute. repeat constructor; cbn [In]; intuition discriminate.
Qed.

Lemma counts_after_commands_witness :
  let g := run [DeleteRow "2"] (GridDataManager Sample.amounts "id") in
  List.NoDup (map (rowIdOf "id") Sample.amounts) /\
  totalRows (getCurrentState g) = length (displayIndex g) /\
  (filteredCount (getCurrentState g) <= totalRows (getCurrentState g))%nat.
Proof.
  cbv zeta. split; [exact amounts_ids_distinct|].
  exact (proj2 (proj2 (counts_after_commands Sample.amounts "id"
                         [DeleteRow "2"] amounts_ids_distinct))).
Defined.

Lemma numeric_cache_never_NaN_witness :
  let cs := [UpdateCell "2" "amount" (VStr "abc")] in
  let m : gmap RowId Num :=
    list_to_map [("1", Fin 10); ("2", Fin 5); ("3", Fin 20)] in
  inColumns "amount" NUMERIC_COLUMNS = true /\
  sortValues (run cs (GridDataManager Sample.amounts "id")) !! "amount"
    = Some m /\
  m !! "2" <> Some NaN.
Proof.
  cbv zeta. split; [reflexivity|].
  assert (Hm : sortValues
                 (run [UpdateCell "2" "amount" (VStr "abc")]
                    (GridDataManager Sample.amounts "id")) !! "amount" =
               Some (list_to_map
                       [("1", Fin 10); ("2", Fin 5); ("3", Fin 20)]))
    by (vm_compute; reflexivity).
  split; [exact Hm|].
  exact (numeric_cache_never_NaN Sample.amounts "id" _ "amount" _ "2"
           eq_refl Hm).
Defined.

Lemma display_stays_sorted_witness :
  let cs := [SortBy "amount" asc; UpdateCell "2" "amount" (VStr "100");
             AddRow Sample2.fourth; DeleteRow "1"] in
  let g := run cs (GridDataManager Sample.amounts "id") in
  let m : gmap RowId Num :=
    list_to_map [("2", Fin 100); ("3", Fin 20); ("4", Fin 7)] in
  currentSort g = {| sort_column := Some "amount"; sort_direction := asc |} /\
  asc <> none /\
  inColumns "amount" NUMERIC_COLUMNS = true /\
  sortValues g !! "amount" = Some m /\
  displayIndex g = ["4"; "3"; "2"] /\
  StronglySorted (inOrder m asc) (displayIndex g).
Proof.
  cbv zeta.
  assert (Hsort : currentSort
                    (run [SortBy "amount" asc;
                          UpdateCell "2" "amount" (VStr "100");
                          AddRow Sample2.fourth; DeleteRow "1"]
                       (GridDataManager Sample.amounts "id")) =
                  {| sort_column := Some "amount"; sort_direction := asc |})
    by (vm_compute; reflexivity).
  assert (Hm : sortValues
                 (run [SortBy "amount" asc;
                       UpdateCell "2" "amount" (VStr "100");
                       AddRow Sample2.fourth; DeleteRow "1"]
                    (GridDataManager Sample.amounts "id")) !! "amount" =
               Some (list_to_map
                       [("2", Fin 100); ("3", Fin 20); ("4", Fin 7)]))
    by (vm_compute; reflexivity).
  split; [exact Hsort|]. split; [discriminate|]. split; [reflexivity|].
  split; [exact Hm|]. split; [vm_compute; reflexivity|].
  apply (display_stays_sorted Sample.amounts "id" _ "amount" asc _ Hsort);
    [discriminate|reflexivity|exact Hm].
Defined.

Lemma deleteRow_removes_witness :
  let g := GridDataManager Sample.amounts "id" in
  is_Some (rowMap g !! "2") /\
  displayIndex (snd (deleteRow "2" g)) =
  List.filter (differs "2") (displayIndex g).
Proof.
  cbv zeta.
  assert (Hsome : is_Some (rowMap (GridDataManager Sample.amounts "id")
                             !! "2")) by (vm_compute; eauto).
  split; [exact Hsome|].
  exact (proj1 (proj2 (proj2 (proj2 (deleteRow_removes "2" _ Hsome))))).
Defined.

Lemma unknown_id_changes_nothing_witness :
  let g := GridDataManager Sample.amounts "id" in
  rowMap g !! "9" = None /\
  updateCell "9" "amount" (VStr "1") g = (None, g).
Proof.
  cbv zeta.
  assert (Hnone : rowMap (GridDataManager Sample.amounts "id") !! "9" = None)
    by (vm_compute; reflexivity).
  split; [exact Hnone|].
  exact (proj1 (unknown_id_changes_nothing "9" "amount" (VStr "1") _ Hnone)).
Defined.

Lemma addRow_inserts_witness :
  let g := GridDataManager Sample.amounts "id" in
  rowMap g !! rowIdOf (idField g) Sample2.fourth = None /\
  getRowById (rowIdOf (idField g) Sample2.fourth)
    (snd (addRow Sample2.fourth g)) = Some Sample2.fourth.
Proof.
  cbv zeta.
  assert (Hnone : rowMap (GridDataManager Sample.amounts "id")
                    !! rowIdOf (idField (GridDataManager Sample.amounts "id"))
                         Sample2.fourth = None)
    by (vm_compute; reflexivity).
  split; [exact Hnone|].
  exact (proj1 (proj2 (addRow_inserts Sample2.fourth _ Hnone))).
Defined.

Lemma addRow_deleteRow_round_trip_witness :
  let g := run [] (GridDataManager Sample.amounts "id") in
  let id := rowIdOf (idField g) Sample2.fourth in
  rowMap g !! id = None /\
  sort_direction (currentSort g) = none /\
  rowMap (snd (deleteRow id (snd (addRow Sample2.fourth g)))) = rowMap g.
Proof.
  cbv zeta.
  assert (Hnone : rowMap (run [] (GridDataManager Sample.amounts "id"))
                    !! rowIdOf
                         (idField (run [] (GridDataManager Sample.amounts "id")))
                         Sample2.fourth = None)
    by (vm_compute; reflexivity).
  assert (Hdir : sort_direction
                   (currentSort (run [] (GridDataManager Sample.amounts "id")))
                 = none) by (vm_compute; reflexivity).
  split; [exact Hnone|]. split; [exact Hdir|].
  exact (proj1 (addRow_deleteRow_round_trip Sample.amounts "id" []
                  Sample2.fourth Hnone Hdir)).
Defined.

Lemma addFilter_replaces_witness :
  let g := GridDataManager Sample.people "id" in
  column Sample.amountAbove4 = column Sample2.amountAbove6 /\
  snd (addFilter Sample2.amountAbove6
         (snd (addFilter Sample.amountAbove4 g))) =
  snd (addFilter Sample2.amountAbove6 g).
Proof.
  cbv zeta. split; [reflexivity|].
  exact (proj1 (addFilter_replaces Sample.amountAbove4 Sample2.amountAbove6
                  _ eq_refl)).
Defined.

Lemma addFilter_commutes_witness :
  let g := GridDataManager Sample.people "id" in
  column Sample.amountAbove4 <> column Sample2.nameHasAn /\
  filteredIndex (snd (addFilter Sample2.nameHasAn
                        (snd (addFilter Sample.amountAbove4 g)))) =
  filteredIndex (snd (addFilter Sample.amountAbove4
                        (snd (addFilter Sample2.nameHasAn g)))).
Proof.
  cbv zeta.
  assert (Hne : column Sample.amountAbove4 <> column Sample2.nameHasAn)
    by discriminate.
  split; [exact Hne|].
  exact (proj1 (addFilter_commutes Sample.amountAbove4 Sample2.nameHasAn
                  _ Hne)).
Defined.

Lemma sortBy_idempotent_witness :
  let g := run [SortBy "amount" desc] (GridDataManager Sample.amounts "id") in
  snd (sortBy "id" none (snd (sortBy "id" none g))) =
  snd (sortBy "id" none g).
Proof.
  cbv zeta.
  exact (@sortBy_idempotent refHost refHost_order Sample.amounts "id"
           [SortBy "amount" desc] "id" none (or_introl eq_refl)).
Defined.

Lemma getVisibleRows_pages_witness :
  let g := GridDataManager Sample.amounts "id" in
  (1 <= 2)%nat /\
  forall k,
    (length (getVisibleRows (Fin (Z.of_nat (k * 2))) (Fin (Z.of_nat 2)) g)
     <= 2)%nat.
Proof.
  cbv zeta. split; [lia|].
  exact (proj1 (getVisibleRows_pages _ 2 ltac:(lia))).
Defined.

Lemma handleSort_cycles_witness :
  Hook.columnAt ["name"; "amount"] 2 = Some "amount" /\
  exists s3,
    (exists s1 s2,
       Hook.handleSort ["name"; "amount"] 2 Sample2.hook = Some s1 /\
       Hook.handleSort ["name"; "amount"] 2 s1 = Some s2 /\
       Hook.handleSort ["name"; "amount"] 2 s2 = Some s3) /\
    Hook.sortDirection s3 = Hook.dNone.
Proof.
  split; [reflexivity|].
  destruct (handleSort_cycles ["name"; "amount"] 2 "amount" Sample2.hook
              eq_refl (or_intror eq_refl))
    as (s1 & s2 & s3 & H1 & H2 & H3 & _ & _ & _ & _ & Hd & _).
  exists s3. split; [|exact Hd]. exists s1, s2. auto.
Defined.

Lemma callbacks_keep_snapshot_witness :
  synced Sample2.hook /\ synced (Hook.removeFilter "amount" Sample2.hook).
Proof.
  assert (Hs : synced Sample2.hook) by reflexivity.
  split; [exact Hs|].
  exact (proj1 (proj2 (proj2 (callbacks_keep_snapshot _ Hs))) "amount").
Defined.

Lemma search_sees_current_rows_witness :
  let g := run [UpdateCell "2" "name" (VStr "Joanna")]
             (GridDataManager Sample.people "id") in
  "an" <> "" /\
  filteredIndex (snd (filterBySearch "an" g)) = ["1"; "2"; "3"].
Proof.
  cbv zeta.
  assert (Hq : "an" <> "") by discriminate.
  split; [exact Hq|].
  assert (Hv : List.filter
                 (fun id =>
                    includes
                      (buildSearchString
                         (rowOf (run [UpdateCell "2" "name" (VStr "Joanna")]
                                   (GridDataManager Sample.people "id")) id))
                      (toLowerCase "an"))
                 (displayIndex
                    (run [UpdateCell "2" "name" (VStr "Joanna")]
                       (GridDataManager Sample.people "id"))) =
               ["1"; "2"; "3"]) by (vm_compute; reflexivity).
  exact (eq_trans
           (proj2 (search_sees_current_rows Sample.people "id"
                     [UpdateCell "2" "name" (VStr "Joanna")]) "an" Hq)
           Hv).
Defined.

Lemma caches_follow_rows_witness :
  let g := run [DeleteRow "2"] (GridDataManager Sample.amounts "id") in
  let m : gmap RowId Num := list_to_map [("1", Fin 10); ("3", Fin 20)] in
  sortValues g !! "amount" = Some m /\
  is_Some (m !! "3") /\
  is_Some (rowMap g !! "3").
Proof.
  cbv zeta.
  assert (Hm : sortValues
                 (run [DeleteRow "2"] (GridDataManager Sample.amounts "id"))
                 !! "amount" =
               Some (list_to_map [("1", Fin 10); ("3", Fin 20)]))
    by (vm_compute; reflexivity).
  assert (Hin : is_Some
                  ((list_to_map [("1", Fin 10); ("3", Fin 20)]
                    : gmap RowId Num) !! "3"))
    by (vm_compute; eauto).
  split; [exact Hm|]. split; [exact Hin|].
  exact (proj2 (caches_follow_rows Sample.amounts "id" [DeleteRow "2"] "3")
           "amount" _ Hm Hin).
Defined.

Lemma one_filter_per_column_witness :
  let g := run [AddFilter Sample.amountAbove4]
             (GridDataManager Sample.people "id") in
  column Sample.amountAbove4 = column Sample2.amountAbove6 /\
  ~ In Sample.amountAbove4
      (activeFilters (snd (addFilter Sample2.amountAbove6 g))).
Proof.
  cbv zeta. split; [reflexivity|]. intros Hin.
  assert (Heq : Sample.amountAbove4 = Sample2.amountAbove6)
    by exact (proj1 (proj2 (one_filter_per_column Sample.people "id"
                              [AddFilter Sample.amountAbove4]
                              Sample2.amountAbove6))
                _ Hin eq_refl).
  discriminate Heq.
Defined.

Lemma getVisibleRows_edges_witness :
  let g := GridDataManager Sample.amounts "id" in
  Z.of_nat (length (filteredIndex g)) <= 3 /\
  getVisibleRows (Fin 3) (Fin (Z.of_nat 2)) g = [].
Proof.
  cbv zeta.
  assert (Hle : Z.of_nat (length (filteredIndex
                                    (GridDataManager Sample.amounts "id")))
                <= 3) by (vm_compute; discriminate).
  split; [exact Hle|].
  exact (proj1 (getVisibleRows_edges _ 2 3) Hle).
Defined.

Lemma toggleSelection_flips_witness :
  List.NoDup ["1"; "2"] /\
  List.NoDup (Hook.toggleSelection "3" ["1"; "2"]) /\
  Hook.includesId "3" ["1"; "2"] = false /\
  Hook.toggleSelection "3" (Hook.toggleSelection "3" ["1"; "2"]) =
  ["1"; "2"].
Proof.
  assert (Hnd : List.NoDup ["1"; "2"])
    by (repeat constructor; cbn [In]; intuition discriminate).
  split; [exact Hnd|].
  split; [exact (proj1 (proj2 (toggleSelection_flips "3" _)) Hnd)|].
  split; [reflexivity|].
  exact (proj2 (proj2 (toggleSelection_flips "3" ["1"; "2"])) eq_refl).
Defined.

Lemma toggleSelectAll_by_count_witness :
  let others := selecting ["7"; "8"; "9"] Sample2.hook in
  let all := map (Hook.snapshotId "id")
               (filteredRows (Hook.gridState Sample2.hook)) in
  length (Hook.selectedIds others) = length all /\
  Hook.toggleSelectAll "id" others = [] /\
  length (Hook.selectedIds Sample2.hook) <> length all /\
  all = ["1"; "2"; "3"] /\
  Hook.toggleSelectAll "id" Sample2.hook = all.
Proof.
  cbv zeta.
  assert (Heq : length (Hook.selectedIds
                          (selecting ["7"; "8"; "9"] Sample2.hook)) =
                length (map (Hook.snapshotId "id")
                          (filteredRows (Hook.gridState Sample2.hook))))
    by (vm_compute; reflexivity).
  assert (Hne : length (Hook.selectedIds Sample2.hook) <>
                length (map (Hook.snapshotId "id")
                          (filteredRows (Hook.gridState Sample2.hook))))
    by (vm_compute; discriminate).
  split; [exact Heq|].
  split;
    [exact (proj1 (toggleSelectAll_by_count "id"
                     (selecting ["7"; "8"; "9"] Sample2.hook)) Heq)|].
  split; [exact Hne|].
  split; [vm_compute; reflexivity|].
  exact (proj1 (proj2 (toggleSelectAll_by_count "id" Sample2.hook) Hne)).
Defined.

Lemma Hook_deleteRow_selection_witness :
  let s := selecting ["2"; "3"] Sample2.hook in
  is_Some (rowMap (Hook.dataManager s) !! "2") /\
  Hook.selectedIds (Hook.deleteRow "2" s) = ["3"] /\
  Hook.isSelected "2" (Hook.deleteRow "2" s) = false /\
  rowMap (Hook.dataManager s) !! "9" = None /\
  Hook.selectedIds (Hook.deleteRow "9" s) = ["2"; "3"].
Proof.
  cbv zeta.
  assert (Hsome : is_Some
                    (rowMap (Hook.dataManager
                               (selecting ["2"; "3"] Sample2.hook)) !! "2"))
    by (vm_compute; eauto).
  assert (Hnone : rowMap (Hook.dataManager
                            (selecting ["2"; "3"] Sample2.hook)) !! "9" = None)
    by (vm_compute; reflexivity).
  split; [exact Hsome|].
  split; [vm_compute; reflexivity|].
  split; [exact (proj1 (proj1 (Hook_deleteRow_selection "2" _) Hsome))|].
  split; [exact Hnone|].
  exact (proj2 (proj2 (proj2 (Hook_deleteRow_selection "9" _) Hnone))).
Defined.

End MoreInstances.
